(** * Zeiss Cirrus OCT volume extraction: a shallow embedding of
      [extract_zeiss_volumes.py] and the properties of its core.

    The development follows the script function by function:
    - [Py]      the few Python built-ins the script relies on
                (exceptions, [range], slicing, [str] of integers and tuples);
    - [Np]      the numpy operations of [read_img] (reshape, the
                [[::-1, ::-1]] view, [stack], float32 division);
    - [Decoder] [infer_shape_from_filesize], the shape selection and
                [read_img] once the bytes are read;
    - [PathLib] pure POSIX paths ([parts], [name], [parent], [/], [str]);
    - [Mapper]  [relative_under_images], [safe_leaf_foldername] and the
                output directory built from them;
    - [FS]      a directory tree with path resolution, [mkdir -p] and file
                writes, and the state-and-exception monad that threads it
                and records every I/O event;
    - [Zeiss]   the I/O primitives, [read_img], [process_one] and the loop
                of [main], under their own names.
    The properties come after the definitions, in the same order.

    Python integers are [Z]; bytes are [Byte.byte]; strings are Rocq
    strings, read as sequences of the code points 0..255. *)

From Stdlib Require Import ZArith Lia.
From Stdlib Require Import Strings.String Strings.Ascii Numbers.DecimalString.
From Stdlib Require Import Floats.SpecFloat QArith.QArith_base.
From stdpp Require Import base option list gmap strings.

Local Open Scope Z_scope.

(** ** Python built-ins *)

Module Py.

(** The exceptions the script can meet.  [OSError] stands for its
    subclasses; the errno tells them apart. *)
Inductive errno := ENOENT | EEXIST | ENOTDIR | EISDIR.

Inductive exn :=
| ValueError (msg : string)
| OSError (code : errno) (filename : string).

Inductive result (A : Type) :=
| Ret (a : A)
| Raise (e : exn).
Arguments Ret {A} a.
Arguments Raise {A} e.

Definition bind {A B} (m : result A) (k : A → result B) : result B :=
  match m with
  | Ret a => k a
  | Raise e => Raise e
  end.

Definition is_ret {A} (m : result A) : bool :=
  match m with Ret _ => true | Raise _ => false end.

(** [range(n)] *)
Definition range (n : Z) : list Z := Z.of_nat <$> seq 0 (Z.to_nat n).

(** Normalisation of one bound of a slice of a sequence of length [len]. *)
Definition clamp_index (len i : Z) : Z :=
  if i <? 0 then Z.max (i + len) 0 else Z.min i len.

(** [l[s:e]] *)
Definition slice {A} (l : list A) (s e : Z) : list A :=
  let n := Z.of_nat (length l) in
  let s' := clamp_index n s in
  let e' := clamp_index n e in
  take (Z.to_nat (e' - s')) (drop (Z.to_nat s') l).

(** [str(n)] for an integer. *)
Definition str_int (n : Z) : string := NilZero.string_of_int (Z.to_int n).

(** [str(t)] for a 3-tuple of integers. *)
Definition str_tuple3 (t : Z * Z * Z) : string :=
  let '(a, b, c) := t in
  "(" +:+ str_int a +:+ ", " +:+ str_int b +:+ ", " +:+ str_int c +:+ ")".

(** The line feed of the script's string literals. *)
Definition nl : string := String (ascii_of_nat 10) EmptyString.

End Py.
Export Py.

Notation "x ←r m ; k" := (Py.bind m (λ x, k))
  (at level 20, m at level 100, k at level 200, only parsing).

(** ** numpy *)

Module Np.

(** A 2-D uint8 array is the list of its rows, a 3-D one the list of its
    frames; a float32 is a [spec_float] of precision 24 and maximal
    exponent 128. *)
Abbreviation array2 := (list (list Byte.byte)).
Abbreviation array3 := (list (list (list Byte.byte))).

Definition prec32 : Z := 24.
Definition emax32 : Z := 128.

(** Conversion of a Python integer to float32: rounding to nearest, ties
    to even (exact up to 2^24 in absolute value). *)
Definition float32_of_int (z : Z) : spec_float :=
  binary_normalize prec32 emax32 z 0 false.

Definition float32_div (x y : spec_float) : spec_float :=
  SFdiv prec32 emax32 x y.

(** [np.array(t, dtype=np.float32)] for a 3-tuple of integers. *)
Definition array_float32 (t : Z * Z * Z) : spec_float * spec_float * spec_float :=
  let '(a, b, c) := t in (float32_of_int a, float32_of_int b, float32_of_int c).

(** Elementwise [/] of two float32 vectors of length 3. *)
Definition divide3 (x y : spec_float * spec_float * spec_float) :=
  let '(x0, x1, x2) := x in
  let '(y0, y1, y2) := y in
  (float32_div x0 y0, float32_div x1 y1, float32_div x2 y2).

(** The rows of a flat buffer cut every [w] elements, [h] of them. *)
Definition rows (h w : nat) (a : list Byte.byte) : array2 :=
  (λ r, take w (drop (r * w) a)) <$> seq 0 h.

Definition reshape_error : exn :=
  ValueError "cannot reshape array into the requested shape".

(** [a.reshape((h, w))] on a 1-D array: one dimension may be [-1] and is
    then inferred; otherwise the sizes must agree. *)
Definition reshape2 (a : list Byte.byte) (h w : Z) : result array2 :=
  let n := Z.of_nat (length a) in
  if (h <? -1) || (w <? -1) then Raise (ValueError "negative dimensions not allowed")
  else if (h =? -1) && (w =? -1) then Raise (ValueError "can only specify one unknown dimension")
  else if h =? -1 then
    if (w =? 0) || negb (n mod w =? 0) then Raise reshape_error
    else Ret (rows (Z.to_nat (n / w)) (Z.to_nat w) a)
  else if w =? -1 then
    if (h =? 0) || negb (n mod h =? 0) then Raise reshape_error
    else Ret (rows (Z.to_nat h) (Z.to_nat (n / h)) a)
  else if h * w =? n then Ret (rows (Z.to_nat h) (Z.to_nat w) a)
  else Raise reshape_error.

(** [a[::-1, ::-1]]: rows in reverse order, each row reversed. *)
Definition flip_rows_cols (a : array2) : array2 := reverse (reverse <$> a).

(** [np.stack(frames, axis=0)]; the frames built by [read_img] all have
    the same shape, so only the empty list is refused. *)
Definition stack (frames : list array2) : result array3 :=
  match frames with
  | [] => Raise (ValueError "need at least one array to stack")
  | _ => Ret frames
  end.

End Np.

(** ** The decoder *)

Module Decoder.

Abbreviation shape := (Z * Z * Z)%type.

(** A SimpleITK image: the voxel array and its spacing in (x, y, z)
    order.  Building one from the decoded volume is taken to succeed. *)
Record sitk_image := SitkImage {
  sitk_array : Np.array3;
  sitk_spacing : spec_float * spec_float * spec_float
}.

(** [infer_shape_from_filesize] *)
Definition known : list shape := [(200, 1024, 200)].

Definition infer_shape_from_filesize (n_bytes : Z) : option shape :=
  find (λ '(d, h, w), d * h * w =? n_bytes) known.

(** The shape selection at the head of [process_one]. *)
Definition resolve_shape (n_bytes : Z) (force_shape : option shape) : shape :=
  let inferred := infer_shape_from_filesize n_bytes in
  match force_shape with
  | Some s => s
  | None =>
      match inferred with
      | Some s => s
      | None => (200, 1024, 200)
      end
  end.

(** The message of the [ValueError] raised by [read_img]; [p] is
    [str(p)] of the file read. *)
Definition size_mismatch_msg (p : string) (got expected : Z) (size_pix_zyx : shape) : string :=
  "Size mismatch for " +:+ p +:+ ":" +:+ nl +:+
  "  got    " +:+ str_int got +:+ " bytes" +:+ nl +:+
  "  expect " +:+ str_int expected +:+ " bytes for shape " +:+ str_tuple3 size_pix_zyx +:+ nl +:+
  "  (hint: this file might not be a 200x200 cube or has different dimensions)".

(** The [for bscan_nr in range(d)] loop of [read_img]; [vol] is the list
    being appended to. *)
Fixpoint bscan_loop (img_bytes : list Byte.byte) (h w hw : Z)
    (todo : list Z) (vol : list Np.array2) : result (list Np.array2) :=
  match todo with
  | [] => Ret vol
  | bscan_nr :: todo' =>
      let s := hw * bscan_nr in
      let e := s + hw in
      bscan ←r Np.reshape2 (Py.slice img_bytes s e) h w;
      bscan_loop img_bytes h w hw todo' (vol ++ [Np.flip_rows_cols bscan])
  end.

(** [read_img] after [np.fromfile]: [img_bytes] is the buffer read from
    [p], [has_sitk] the module constant [HAS_SITK]. *)
Definition read_img_bytes (has_sitk : bool) (p : string) (img_bytes : list Byte.byte)
    (size_pix_zyx : shape) (size_mm_zyx : Z * Z * Z)
    : result (Np.array3 * (spec_float * spec_float * spec_float) * option sitk_image) :=
  let '(d, h, w) := size_pix_zyx in
  let expected := d * h * w in
  let size := Z.of_nat (length img_bytes) in
  if negb (size =? expected) then
    Raise (ValueError (size_mismatch_msg p size expected size_pix_zyx))
  else
    let spacing_zyx := Np.divide3 (Np.array_float32 size_mm_zyx) (Np.array_float32 size_pix_zyx) in
    let hw := h * w in
    frames ←r bscan_loop img_bytes h w hw (Py.range d) [];
    vol ←r Np.stack frames;
    let sim :=
      if has_sitk then
        let '(sz, sy, sx) := spacing_zyx in Some (SitkImage vol (sx, sy, sz))
      else None in
    Ret (vol, spacing_zyx, sim).

(** *** Vocabulary of the statements *)

(** [vol[i][r][c]] and [raw[r][c]] for indices within bounds. *)
Definition at3 (vol : Np.array3) (i r c : Z) : option Byte.byte :=
  frame ← vol !! Z.to_nat i; row ← frame !! Z.to_nat r; row !! Z.to_nat c.

Definition at2 (a : Np.array2) (r c : Z) : option Byte.byte :=
  row ← a !! Z.to_nat r; row !! Z.to_nat c.

(** The raw [(h, w)] reshape of the [i]-th slice of the buffer. *)
Definition raw_frame (img_bytes : list Byte.byte) (h w i : Z) : Np.array2 :=
  Np.rows (Z.to_nat h) (Z.to_nat w) (Py.slice img_bytes (i * h * w) ((i + 1) * h * w)).

(** The frame the loop of [read_img] builds for index [i]. *)
Definition frame_of (img_bytes : list Byte.byte) (h w : Z) (i : Z) : Np.array2 :=
  Np.flip_rows_cols
    (Np.rows (Z.to_nat h) (Z.to_nat w) (Py.slice img_bytes (h * w * i) (h * w * i + h * w))).

(** The number of bytes of a shape. *)
Definition volume (s : shape) : Z := let '(d, h, w) := s in d * h * w.

(** The rational a finite float stands for. *)
Definition float_value (f : spec_float) : option Q :=
  match f with
  | S754_zero _ => Some (inject_Z 0)
  | S754_finite s m e =>
      Some (Qmult (inject_Z (if s then Z.neg m else Z.pos m)) (Qpower (inject_Z 2) e))
  | _ => None
  end.

(** The float32 nearest to 0.03, and 2^-9. *)
Definition f32_0_03 : spec_float := S754_finite false 16106127 (-29).
Definition f32_2_pow_m9 : spec_float := S754_finite false 8388608 (-32).

End Decoder.


(** ** pathlib *)

Module PathLib.

(** A pure POSIX path is the tuple of its [parts]: the anchor first when
    the path is absolute, then the names.  The anchor is the root ["/"],
    or ["//"], which pathlib keeps apart when a path starts with exactly
    two separators.  pathlib keeps no empty name, no ["."] and no
    separator inside a name. *)
Abbreviation Path := (list string).

Definition root : string := "/".

Definition is_anchor (s : string) : bool :=
  bool_decide (s = root) || bool_decide (s = "//").

Definition has_anchor (p : Path) : bool :=
  match p with
  | s :: _ => is_anchor s
  | [] => false
  end.

(** [p.name] *)
Definition name (p : Path) : string :=
  if (length p =? (if has_anchor p then 1 else 0))%nat then EmptyString
  else default EmptyString (last p).

(** [p.parent] *)
Definition parent (p : Path) : Path :=
  if has_anchor p && (length p =? 1)%nat then p else removelast p.

(** How pathlib reads a string: the separators at its start make the
    anchor, ["//"] when there are exactly two of them and ["/"] otherwise;
    the rest is split at the separators, and the empty pieces and the
    pieces ["."] are dropped. *)
Fixpoint lstrip_sep (s : string) : string :=
  match s with
  | EmptyString => EmptyString
  | String c s' => if bool_decide (c = "/"%char) then lstrip_sep s' else s
  end.

Fixpoint split_sep (cur s : string) : list string :=
  match s with
  | EmptyString => [cur]
  | String c s' =>
      if bool_decide (c = "/"%char) then cur :: split_sep EmptyString s'
      else split_sep (cur +:+ String c EmptyString) s'
  end.

Definition anchor_of (s : string) : list string :=
  let n := (String.length s - String.length (lstrip_sep s))%nat in
  if (n =? 0)%nat then [] else if (n =? 2)%nat then ["//"] else [root].

Definition parse_str (s : string) : Path :=
  anchor_of s
  ++ filter (λ x, x ≠ EmptyString ∧ x ≠ ".") (split_sep EmptyString (lstrip_sep s)).

(** [p / q]: an anchored operand replaces what is on its left. *)
Definition join (p q : Path) : Path := if has_anchor q then q else p ++ q.

(** The constructor [Path] applied to the strings [args]. *)
Definition add_component (acc : Path) (s : string) : Path := join acc (parse_str s).

Definition Path_of (args : list string) : Path := foldl add_component [] args.

(** [p / s] for a string [s]. *)
Definition join_str (p : Path) (s : string) : Path := join p (Path_of [s]).

Fixpoint concat_with (sep : string) (l : list string) : string :=
  match l with
  | [] => EmptyString
  | [s] => s
  | s :: l' => s +:+ sep +:+ concat_with sep l'
  end.

(** [str(p)] *)
Definition str (p : Path) : string :=
  match p with
  | [] => "."
  | s :: l => if is_anchor s then s +:+ concat_with "/" l else concat_with "/" p
  end.

(** What pathlib guarantees of a name. *)
Fixpoint has_sep (s : string) : bool :=
  match s with
  | EmptyString => false
  | String c s' => bool_decide (c = "/"%char) || has_sep s'
  end.

Definition valid_name (s : string) : bool :=
  negb (bool_decide (s = EmptyString)) && negb (bool_decide (s = ".")) && negb (has_sep s).

Definition names (p : Path) : list string := if has_anchor p then tail p else p.

Definition wf (p : Path) : bool := forallb valid_name (names p).

End PathLib.

Notation "p // q" := (PathLib.join p q) (at level 40, left associativity).
Notation "p /: s" := (PathLib.join_str p s) (at level 40, left associativity).

(** ** The output path mapper *)

Module Mapper.
Import PathLib.

(** [t.index(x)] *)
Fixpoint index (x : string) (t : list string) : result Z :=
  match t with
  | [] => Raise (ValueError "tuple.index(x): x not in tuple")
  | y :: t' => if bool_decide (y = x) then Ret 0 else i ←r index x t'; Ret (1 + i)
  end.

(** [relative_under_images]: the [try] block is the [Ret] branch, the
    [except] clause the [Raise] branch. *)
Definition relative_under_images (img_path : Path) : Path :=
  let parts := img_path in
  match index "images" parts with
  | Ret idx =>
      let rel_parts := Py.slice parts (idx + 1) (Z.of_nat (length parts)) in
      Path_of rel_parts
  | Raise _ => Path_of [name img_path]
  end.

(** Unicode alphanumerics among the code points 0..255: the ASCII
    letters and digits and the Latin-1 letters and numbers. *)
Definition isalnum (c : ascii) : bool :=
  let n := N_of_ascii c in
  (((48 <=? n) && (n <=? 57)) || ((65 <=? n) && (n <=? 90)) || ((97 <=? n) && (n <=? 122))
   || (n =? 170) || (n =? 178) || (n =? 179) || (n =? 181) || (n =? 185) || (n =? 186)
   || ((188 <=? n) && (n <=? 190)) || ((192 <=? n) && (n <=? 214))
   || ((216 <=? n) && (n <=? 246)) || ((248 <=? n) && (n <=? 255)))%N.

(** The regular expression class [\w]. *)
Definition is_word (c : ascii) : bool := isalnum c || bool_decide (c = "_"%char).

(** The class [[^\w\-.]] of the pattern. *)
Definition unsafe_char (c : ascii) : bool :=
  negb (is_word c || bool_decide (c = "-"%char) || bool_decide (c = "."%char)).

(** [re.sub(cls+, repl, s)] for a character class [cls]: scanning from
    the left, every maximal run of characters of the class is replaced
    by [repl]; [in_run] tells that the previous character was in it. *)
Fixpoint re_sub_runs (cls : ascii → bool) (repl : string) (in_run : bool) (s : string) : string :=
  match s with
  | EmptyString => EmptyString
  | String c s' =>
      if cls c then
        if in_run then re_sub_runs cls repl true s'
        else repl +:+ re_sub_runs cls repl true s'
      else String c (re_sub_runs cls repl false s')
  end.

(** [safe_leaf_foldername] *)
Definition safe_leaf_foldername (filename : string) : string :=
  re_sub_runs unsafe_char "_" false filename.

(** *** Vocabulary of the statements *)

(** The characters the transform keeps: alphanumeric, [_], [.], [-]. *)
Definition safe_char (c : ascii) : bool :=
  isalnum c || bool_decide (c = "_"%char) || bool_decide (c = "."%char)
  || bool_decide (c = "-"%char).

Fixpoint all_unsafe (s : string) : bool :=
  match s with
  | EmptyString => true
  | String c s' => negb (safe_char c) && all_unsafe s'
  end.

Definition starts_safe (s : string) : bool :=
  match s with
  | EmptyString => true
  | String c _ => safe_char c
  end.

(** [runs_replaced s t]: [t] is [s] with every maximal run of characters
    outside the kept class replaced by a single underscore.  A run is
    maximal when what follows it is empty or starts with a kept
    character; what precedes it is a kept character or the start. *)
Inductive runs_replaced : string → string → Prop :=
| rr_end : runs_replaced EmptyString EmptyString
| rr_keep c s t :
    safe_char c = true → runs_replaced s t →
    runs_replaced (String c s) (String c t)
| rr_run c r s t :
    all_unsafe (String c r) = true → starts_safe s = true → runs_replaced s t →
    runs_replaced (String c r +:+ s) (String "_" t).

(** The output directory of [process_one]:
    [out_root / rel_parent / leaf_dir]. *)
Definition out_dir_of (out_root img_path : Path) : Path :=
  let rel := relative_under_images img_path in
  let rel_parent := parent rel in
  let leaf_dir := safe_leaf_foldername (name rel) in
  out_root // rel_parent /: leaf_dir.

End Mapper.


(** ** The file system and the I/O monad *)

Module FS.
Import PathLib.

(** A directory tree.  A path is resolved from the top node along its
    parts, the anchor being one of them; names are not interpreted: no
    [".."], no links, and the anchor ["//"], whose meaning POSIX leaves to
    the implementation, is an entry of the top node like ["/"]. *)
#[warnings="-register-all"] Inductive node :=
| File (content : list Byte.byte)
| Dir (children : gmap string node).

Inductive event :=
| EvStat (p : Path)
| EvMkdir (p : Path)
| EvExists (p : Path)
| EvRead (p : Path)
| EvWrite (p : Path).

Record world := World { tree : node; trace : list event }.

(** The node at a path, or the error the kernel reports. *)
Fixpoint resolve (n : node) (p : Path) : errno + node :=
  match p with
  | [] => inr n
  | s :: p' =>
      match n with
      | File _ => inl ENOTDIR
      | Dir ch =>
          match ch !! s with
          | Some n' => resolve n' p'
          | None => inl ENOENT
          end
      end
  end.

(** [mkdir(parents=True, exist_ok=True)]: missing directories are
    created along the path, an existing directory is accepted, a file on
    the way or at the end is refused. *)
Fixpoint mkdir_p (n : node) (p : Path) : errno + node :=
  match p with
  | [] => match n with Dir _ => inr n | File _ => inl EEXIST end
  | s :: p' =>
      match n with
      | File _ => inl ENOTDIR
      | Dir ch =>
          match mkdir_p (default (Dir ∅) (ch !! s)) p' with
          | inr n' => inr (Dir (<[s := n']> ch))
          | inl e => inl e
          end
      end
  end.

(** Opening a path for writing and storing [c]: the file is created or
    replaced; its directory must exist. *)
Fixpoint write (n : node) (p : Path) (c : list Byte.byte) : errno + node :=
  match p with
  | [] => match n with File _ => inr (File c) | Dir _ => inl EISDIR end
  | s :: p' =>
      match n with
      | File _ => inl ENOTDIR
      | Dir ch =>
          match ch !! s with
          | Some n' =>
              match write n' p' c with
              | inr n'' => inr (Dir (<[s := n'']> ch))
              | inl e => inl e
              end
          | None =>
              match p' with
              | [] => inr (Dir (<[s := File c]> ch))
              | _ => inl ENOENT
              end
          end
      end
  end.

(** [t'] has every path of [t], with the same files. *)
Definition keeps_files (t t' : node) : Prop :=
  ∀ q x, resolve t q = inr x →
    match x with
    | File c => resolve t' q = inr (File c)
    | Dir _ => ∃ ch', resolve t' q = inr (Dir ch')
    end.

(** [t'] has every path of [t]. *)
Definition extends (t t' : node) : Prop :=
  ∀ q x, resolve t q = inr x → ∃ x', resolve t' q = inr x'.

(** Computations that run on the world and may raise. *)
Definition IO (A : Type) : Type := world → result A * world.

Definition ret {A} (a : A) : IO A := λ σ, (Ret a, σ).
Definition raise {A} (e : exn) : IO A := λ σ, (Raise e, σ).
Definition lift {A} (r : result A) : IO A := λ σ, (r, σ).

Definition bind {A B} (m : IO A) (k : A → IO B) : IO B :=
  λ σ, match m σ with
       | (Ret a, σ') => k a σ'
       | (Raise e, σ') => (Raise e, σ')
       end.

(** [try: m  except Exception as e: h e] *)
Definition try_except {A} (m : IO A) (h : exn → IO A) : IO A :=
  λ σ, match m σ with
       | (Ret a, σ') => (Ret a, σ')
       | (Raise e, σ') => h e σ'
       end.

Definition log (ev : event) : IO unit :=
  λ σ, (Ret tt, World (tree σ) (trace σ ++ [ev])).

Definition get_tree : IO node := λ σ, (Ret (tree σ), σ).
Definition set_tree (n : node) : IO unit := λ σ, (Ret tt, World n (trace σ)).

End FS.

Notation "x ←io m ; k" := (FS.bind m (λ x, k))
  (at level 20, m at level 100, k at level 200, only parsing).

(** ** The script *)

Module Zeiss.
Import PathLib Mapper Decoder FS.

Abbreviation float3 := (spec_float * spec_float * spec_float)%type.

(** The dictionary written to [meta.json]. *)
Record meta := Meta {
  input_path : string;
  output_dir : string;
  meta_relative_under_images : string;
  shape_zyx : list Z;
  spacing_zyx_mm : list spec_float;
  filesize_bytes : Z;
  sitk_written : bool
}.

(** What the script takes from its environment: whether SimpleITK was
    imported, the encoders of numpy, SimpleITK and json, the encoding of
    [write_text], the text of an [OSError], and the size [stat] reports
    for a directory. *)
Record runtime := Runtime {
  HAS_SITK : bool;
  npy_uint8 : Np.array3 → list Byte.byte;
  npy_float32 : float3 → list Byte.byte;
  nii_gz : sitk_image → list Byte.byte;
  json_dumps : meta → string;
  encode_text : string → list Byte.byte;
  strerror : errno → string → string;
  dir_st_size : Z
}.

Inductive status := OK | SKIP | DRYRUN | ERR.

Section Script.
Context (rt : runtime).

(** [str(e)] *)
Definition str_exn (e : exn) : string :=
  match e with
  | ValueError msg => msg
  | OSError code filename => strerror rt code filename
  end.

(** The size [stat] reports for a node. *)
Definition st_size (n : node) : Z :=
  match n with File c => Z.of_nat (length c) | Dir _ => dir_st_size rt end.

(** [p.stat().st_size] *)
Definition stat_st_size (p : Path) : IO Z :=
  _ ←io log (EvStat p);
  t ←io get_tree;
  match resolve t p with
  | inr (File c) => ret (Z.of_nat (length c))
  | inr (Dir _) => ret (dir_st_size rt)
  | inl code => raise (OSError code (str p))
  end.

(** [p.mkdir(parents=True, exist_ok=True)] *)
Definition mkdir_parents_exist_ok (p : Path) : IO unit :=
  _ ←io log (EvMkdir p);
  t ←io get_tree;
  match mkdir_p t p with
  | inr t' => set_tree t'
  | inl code => raise (OSError code (str p))
  end.

(** [p.exists()] *)
Definition exists_ (p : Path) : IO bool :=
  _ ←io log (EvExists p);
  t ←io get_tree;
  ret (match resolve t p with inr _ => true | inl _ => false end).

(** [np.fromfile(p, dtype=np.uint8)] *)
Definition np_fromfile (p : Path) : IO (list Byte.byte) :=
  _ ←io log (EvRead p);
  t ←io get_tree;
  match resolve t p with
  | inr (File c) => ret c
  | inr (Dir _) => raise (OSError EISDIR (str p))
  | inl code => raise (OSError code (str p))
  end.

(** Writing a whole file: [np.save], [sitk.WriteImage], [write_text]. *)
Definition write_file (p : Path) (c : list Byte.byte) : IO unit :=
  _ ←io log (EvWrite p);
  t ←io get_tree;
  match write t p c with
  | inr t' => set_tree t'
  | inl code => raise (OSError code (str p))
  end.

(** [a and b] on two tests with effects. *)
Definition and_ (a b : IO bool) : IO bool :=
  x ←io a; if x then b else ret false.

(** [read_img] *)
Definition read_img (p : Path) (size_pix_zyx : shape) (size_mm_zyx : Z * Z * Z)
    : IO (Np.array3 * float3 * option sitk_image) :=
  img_bytes ←io np_fromfile p;
  lift (read_img_bytes (HAS_SITK rt) (str p) img_bytes size_pix_zyx size_mm_zyx).

(** [process_one] *)
Definition process_one (img_path out_root : Path) (default_mm : Z * Z * Z)
    (force_shape : option shape) (dry_run overwrite : bool) : IO (status * string) :=
  n_bytes ←io stat_st_size img_path;
  let shape := resolve_shape n_bytes force_shape in
  let rel := relative_under_images img_path in
  let rel_parent := parent rel in
  let leaf_dir := safe_leaf_foldername (name rel) in
  let out_dir := out_root // rel_parent /: leaf_dir in
  _ ←io mkdir_parents_exist_ok out_dir;
  let meta_path := out_dir /: "meta.json" in
  let vol_npy := out_dir /: "vol.npy" in
  let spacing_npy := out_dir /: "spacing_zyx.npy" in
  let nii_path := out_dir /: "vol.nii.gz" in
  already_done ←io and_ (and_ (exists_ meta_path) (exists_ vol_npy)) (exists_ spacing_npy);
  if already_done && negb overwrite then ret (SKIP, str img_path)
  else if dry_run then ret (DRYRUN, str img_path)
  else
    try_except
      (r ←io read_img img_path shape default_mm;
       let '(vol, spacing_zyx, sim) := r in
       _ ←io write_file vol_npy (npy_uint8 rt vol);
       _ ←io write_file spacing_npy (npy_float32 rt spacing_zyx);
       sitk_written ←io
         match sim with
         | Some im =>
             if HAS_SITK rt then _ ←io write_file nii_path (nii_gz rt im); ret true
             else ret false
         | None => ret false
         end;
       let '(d, h, w) := shape in
       let '(sz, sy, sx) := spacing_zyx in
       let meta := {|
         input_path := str img_path;
         output_dir := str out_dir;
         meta_relative_under_images := str rel;
         shape_zyx := [d; h; w];
         spacing_zyx_mm := [sz; sy; sx];
         filesize_bytes := n_bytes;
         sitk_written := sitk_written
       |} in
       _ ←io write_file meta_path (encode_text rt (json_dumps rt meta));
       ret (OK, str img_path))
      (λ e,
       _ ←io write_file (out_dir /: "error.txt") (encode_text rt (str_exn e +:+ nl));
       ret (ERR, str img_path +:+ " :: " +:+ str_exn e)).

(** The phases of [process_one], named for the statements: the test
    of the three artifacts, the body of the [try] block, and the
    [except] clause.  [process_one_phases] below shows that
    [process_one] is their composition. *)
Definition check_already_done (out_dir : Path) : IO bool :=
  and_ (and_ (exists_ (out_dir /: "meta.json")) (exists_ (out_dir /: "vol.npy")))
       (exists_ (out_dir /: "spacing_zyx.npy")).

Definition write_nii (out_dir : Path) (sim : option sitk_image) : IO bool :=
  match sim with
  | Some im =>
      if HAS_SITK rt then _ ←io write_file (out_dir /: "vol.nii.gz") (nii_gz rt im); ret true
      else ret false
  | None => ret false
  end.

Definition meta_of (img_path out_dir rel : Path) (shape : shape) (spacing_zyx : float3)
    (n_bytes : Z) (sitk_written : bool) : meta :=
  let '(d, h, w) := shape in
  let '(sz, sy, sx) := spacing_zyx in
  {| input_path := str img_path;
     output_dir := str out_dir;
     meta_relative_under_images := str rel;
     shape_zyx := [d; h; w];
     spacing_zyx_mm := [sz; sy; sx];
     filesize_bytes := n_bytes;
     sitk_written := sitk_written |}.

Definition convert (img_path out_dir rel : Path) (shape : shape) (mm : Z * Z * Z)
    (n_bytes : Z) : IO (status * string) :=
  r ←io read_img img_path shape mm;
  _ ←io write_file (out_dir /: "vol.npy") (npy_uint8 rt r.1.1);
  _ ←io write_file (out_dir /: "spacing_zyx.npy") (npy_float32 rt r.1.2);
  sitk_written ←io write_nii out_dir r.2;
  _ ←io write_file (out_dir /: "meta.json")
         (encode_text rt (json_dumps rt
            (meta_of img_path out_dir rel shape r.1.2 n_bytes sitk_written)));
  ret (OK, str img_path).

Definition record_error (img_path out_dir : Path) (e : exn) : IO (status * string) :=
  _ ←io write_file (out_dir /: "error.txt") (encode_text rt (str_exn e +:+ nl));
  ret (ERR, str img_path +:+ " :: " +:+ str_exn e).

(** The loop of [main] over the files it has enumerated, in order:
    each file is counted, converted and reported; the loop stops once
    [max] (when not zero) files have been counted.  The result is the
    list of reported outcomes. *)
Fixpoint batch_loop (img_paths : list Path) (out : Path) (force_shape : option shape)
    (dry_run overwrite : bool) (max grand_total : Z) : IO (list (status * string)) :=
  match img_paths with
  | [] => ret []
  | img_path :: rest =>
      let grand_total := grand_total + 1 in
      r ←io process_one img_path out (6, 2, 6) force_shape dry_run overwrite;
      if negb (max =? 0) && (max <=? grand_total) then ret [r]
      else
        rs ←io batch_loop rest out force_shape dry_run overwrite max grand_total;
        ret (r :: rs)
  end.

End Script.

(** *** Vocabulary of the statements *)

(** The three artifacts whose presence marks a file as done, and the
    pure form of the test [process_one] makes on them. *)
Definition meta_json (out_dir : Path) : Path := out_dir /: "meta.json".
Definition vol_npy (out_dir : Path) : Path := out_dir /: "vol.npy".
Definition spacing_npy (out_dir : Path) : Path := out_dir /: "spacing_zyx.npy".

Definition present (t : node) (p : Path) : bool :=
  match resolve t p with inr _ => true | inl _ => false end.

Definition already_done (t : node) (out_dir : Path) : bool :=
  present t (meta_json out_dir) && present t (vol_npy out_dir)
  && present t (spacing_npy out_dir).

(** The events of the test, which stops at the first missing artifact. *)
Definition done_events (t : node) (out_dir : Path) : list event :=
  EvExists (meta_json out_dir) ::
  (if present t (meta_json out_dir) then
     EvExists (vol_npy out_dir) ::
     (if present t (vol_npy out_dir) then [EvExists (spacing_npy out_dir)] else [])
   else []).

(** Events that neither read a file nor write one. *)
Definition quiet (ev : event) : bool :=
  match ev with
  | EvRead _ | EvWrite _ => false
  | _ => true
  end.

(** The names [process_one] may write in an output directory, and the
    test that nothing but a regular file sits at any of them: then its
    writes cannot fail. *)
Definition written_names : list string :=
  ["meta.json"; "vol.npy"; "spacing_zyx.npy"; "vol.nii.gz"; "error.txt"].

Definition no_dir_at (ch : gmap string node) (s : string) : bool :=
  match ch !! s with Some (Dir _) => false | _ => true end.

Definition writable (t : node) (out_dir : Path) : bool :=
  match resolve t out_dir with
  | inr (Dir ch) => forallb (no_dir_at ch) written_names
  | _ => false
  end.

(** The files the loop of [main] gets to before the cap stops it. *)
Fixpoint processed (max grand_total : Z) (img_paths : list Path) : list Path :=
  match img_paths with
  | [] => []
  | img_path :: rest =>
      let grand_total := grand_total + 1 in
      if negb (max =? 0) && (max <=? grand_total) then [img_path]
      else img_path :: processed max grand_total rest
  end.

(** Every computation of the script only adds to the tree. *)
Definition grows {A} (m : IO A) : Prop :=
  ∀ σ r σ', m σ = (r, σ') → extends (tree σ) (tree σ').

(** The events a successful conversion adds after reading the file. *)
Definition convert_writes (out_dir : Path) (sitk_written : bool) : list event :=
  [EvWrite (out_dir /: "vol.npy"); EvWrite (out_dir /: "spacing_zyx.npy")]
  ++ (if sitk_written then [EvWrite (out_dir /: "vol.nii.gz")] else [])
  ++ [EvWrite (out_dir /: "meta.json")].

(** A small tree builder and the data of the examples: a two-byte source
    file under [/data/images/s1], first alone, then with the three
    artifacts of its output directory under [/out]. *)
Definition dir (entries : list (string * node)) : node := Dir (list_to_map entries).

Definition example_img : Path := ["/"; "data"; "images"; "s1"; "scan_200x200.img"].
Definition example_out : Path := ["/"; "out"].
Definition example_out_dir : Path := ["/"; "out"; "s1"; "scan_200x200.img"].

Definition example_data : node :=
  dir [("images", dir [("s1", dir [("scan_200x200.img", File [Byte.x0a; Byte.x0b])])])].

Definition example_fresh : node := dir [("/", dir [("data", example_data)])].

Definition example_done : node :=
  dir [("/", dir [("data", example_data);
                  ("out", dir [("s1", dir [("scan_200x200.img",
                     dir [("meta.json", File []); ("vol.npy", File []);
                          ("spacing_zyx.npy", File [])])])])])].

(** The statuses of a batch that ran to its end. *)
Definition statuses (r : result (list (status * string))) : option (list status) :=
  match r with Ret outs => Some (outs.*1) | Raise _ => None end.

(** A source file is settled when it is there with its three artifacts. *)
Definition settled (t : node) (out_root img_path : Path) : bool :=
  present t img_path && already_done t (out_dir_of out_root img_path).

(** The status of a reported outcome, when there is one. *)
Definition status_of (r : result (status * string)) : option status :=
  match r with Ret (st, _) => Some st | Raise _ => None end.

(** A runtime for the examples: no SimpleITK, encoders that keep what
    they are given in the simplest way. *)
Definition example_runtime : runtime := {|
  HAS_SITK := false;
  npy_uint8 := λ vol, concat (concat vol);
  npy_float32 := λ _, [];
  nii_gz := λ _, [];
  json_dumps := λ m, input_path m;
  encode_text := list_byte_of_string;
  strerror := λ _ filename, filename;
  dir_st_size := 4096
|}.

End Zeiss.

(** ** Further vocabulary *)

Module More.
Import PathLib Mapper Decoder FS Zeiss.

(** The bytes of a decoded volume put back in file order: each frame is
    flattened row by row and reversed. *)
Definition encode_volume (vol : Np.array3) : list Byte.byte :=
  mjoin ((λ frame, reverse (mjoin frame)) <$> vol).

(** The shape of a 3-D array given as nested lists. *)
Definition has_shape (vol : Np.array3) (d h w : Z) : Prop :=
  Z.of_nat (length vol) = d
  ∧ Forall (λ frame, Z.of_nat (length frame) = h
                     ∧ Forall (λ row : list Byte.byte, Z.of_nat (length row) = w) frame) vol.

(** Strings made of kept characters only. *)
Fixpoint all_safe (s : string) : bool :=
  match s with
  | EmptyString => true
  | String c s' => safe_char c && all_safe s'
  end.

(** Two sources in one directory whose names the transform sends to the
    same directory name, and a tree that holds both. *)
Definition twin_a : Path := ["/"; "data"; "images"; "s1"; "scan 1.img"].
Definition twin_b : Path := ["/"; "data"; "images"; "s1"; "scan_1.img"].

Definition example_twins : node :=
  dir [("/", dir [("data", dir [("images", dir [("s1",
         dir [("scan 1.img", File [Byte.x0a; Byte.x0b]);
              ("scan_1.img", File [Byte.x0c; Byte.x0d])])])])])].

(** A tree in which a regular file sits where the output directory of
    [example_img] should be made. *)
Definition example_blocked : node :=
  dir [("/", dir [("data", example_data); ("out", File [])])].

End More.

(** ** The batch driver *)

Module Batch.
Import PathLib Mapper Decoder FS Zeiss.

(** The arguments of [main] once parsed: [args.base], [args.out],
    [args.site], [args.version], [args.pattern], [args.max],
    [args.dry_run], [args.overwrite], and [force_shape] as [main] has it
    after reading [args.force_shape]; a run in which that reading raises
    ends there, with the output root made, and is not part of the model. *)
Record args := Args {
  args_base : Path;
  args_out : Path;
  args_site : string;
  args_version : string;
  args_pattern : string;
  args_max : Z;
  args_dry_run : bool;
  args_force_shape : option shape;
  args_overwrite : bool
}.

(** The counters of [main] and the lines it has printed on standard
    output and on standard error. *)
Record progress := Progress {
  grand_ok : Z;
  grand_skip : Z;
  grand_err : Z;
  grand_total : Z;
  stdout : list string;
  stderr : list string
}.

Definition say (line : string) (acc : progress) : progress :=
  Progress (grand_ok acc) (grand_skip acc) (grand_err acc) (grand_total acc)
    (stdout acc ++ [line]) (stderr acc).

Definition warn (line : string) (acc : progress) : progress :=
  Progress (grand_ok acc) (grand_skip acc) (grand_err acc) (grand_total acc)
    (stdout acc) (stderr acc ++ [line]).

(** The strings [process_one] returns as statuses. *)
Definition status_str (st : status) : string :=
  match st with OK => "OK" | SKIP => "SKIP" | DRYRUN => "DRYRUN" | ERR => "ERR" end.

(** [s.lower()] on the code points 0..255. *)
Definition lower_char (c : ascii) : ascii :=
  let n := N_of_ascii c in
  if (((65 <=? n) && (n <=? 90)) || ((192 <=? n) && (n <=? 214))
      || ((216 <=? n) && (n <=? 222)))%N
  then ascii_of_N (n + 32) else c.

Fixpoint lower (s : string) : string :=
  match s with
  | EmptyString => EmptyString
  | String c s' => String (lower_char c) (lower s')
  end.

(** [sub in s] *)
Fixpoint contains (sub s : string) : bool :=
  String.prefix sub s
  || match s with
     | EmptyString => false
     | String _ s' => contains sub s'
     end.

(** The order of [sorted] on strings and on paths: by code points, then
    part by part. *)
Fixpoint path_leb (p q : Path) : bool :=
  match p, q with
  | [], _ => true
  | _ :: _, [] => false
  | a :: p', b :: q' => if String.eqb a b then path_leb p' q' else String.ltb a b
  end.

Fixpoint insert_sorted {A} (leb : A → A → bool) (x : A) (l : list A) : list A :=
  match l with
  | [] => [x]
  | y :: l' => if leb x y then x :: l else y :: insert_sorted leb x l'
  end.

Definition sorted {A} (leb : A → A → bool) (l : list A) : list A :=
  foldr (insert_sorted leb) [] l.

(** Everything below a directory, with the parts that lead to it. *)
Fixpoint descend (n : node) (rel : Path) : list (Path * node) :=
  match n with
  | File _ => []
  | Dir ch =>
      map_fold (λ k v acc, (rel ++ [k], v) :: descend v (rel ++ [k]) ++ acc) [] ch
  end.

Definition is_file (t : node) (p : Path) : bool :=
  match resolve t p with inr (File _) => true | _ => false end.

Definition is_dir_node (n : node) : bool :=
  match n with Dir _ => true | File _ => false end.

Section Main.
Context (rt : runtime).

(** Whether [rglob(pattern)], started from a directory, yields the entry
    that the parts [rel] lead to from there; each entry is yielded once. *)
Context (glob_match : string → Path → bool).

(** [[p for p in d.iterdir() if p.is_dir()]]; listing a directory and
    testing the kind of an entry leave no event. *)
Definition iterdir_dirs (d : Path) : IO (list Path) :=
  t ←io get_tree;
  match resolve t d with
  | inr (Dir ch) =>
      ret ((λ kv, d ++ [kv.1]) <$> filter (λ kv, is_dir_node kv.2 = true) (map_to_list ch))
  | inr (File _) => raise (OSError ENOTDIR (str d))
  | inl code => raise (OSError code (str d))
  end.

(** The list [img_paths] built from [cirrus_dir.rglob(args.pattern)]. *)
Definition list_images (cirrus_dir : Path) (pattern : string) : IO (list Path) :=
  t ←io get_tree;
  match resolve t cirrus_dir with
  | inr n =>
      ret (filter (λ p, is_file t p = true ∧ contains "200x200" (name p) = true)
             ((λ e, cirrus_dir ++ e.1)
                <$> filter (λ e, glob_match pattern e.1 = true) (descend n [])))
  | inl _ => ret []
  end.

Definition done_line (acc : progress) : string :=
  "[DONE] OK=" +:+ str_int (grand_ok acc) +:+ " SKIP=" +:+ str_int (grand_skip acc)
  +:+ " ERR=" +:+ str_int (grand_err acc) +:+ " TOTAL=" +:+ str_int (grand_total acc).

(** One more file counted, and one more of its status. *)
Definition count_file (acc : progress) : progress :=
  Progress (grand_ok acc) (grand_skip acc) (grand_err acc) (grand_total acc + 1)
    (stdout acc) (stderr acc).

Definition count_status (st : status) (acc : progress) : progress :=
  match st with
  | OK => Progress (grand_ok acc + 1) (grand_skip acc) (grand_err acc) (grand_total acc)
            (stdout acc) (stderr acc)
  | SKIP => Progress (grand_ok acc) (grand_skip acc + 1) (grand_err acc) (grand_total acc)
              (stdout acc) (stderr acc)
  | ERR => Progress (grand_ok acc) (grand_skip acc) (grand_err acc + 1) (grand_total acc)
             (stdout acc) (stderr acc)
  | DRYRUN => acc
  end.

(** The counters [ok], [skip], [err] of one patient. *)
Definition count_local (st : status) (c : Z * Z * Z) : Z * Z * Z :=
  let '(ok, skip, err) := c in
  match st with
  | OK => (ok + 1, skip, err)
  | SKIP => (ok, skip + 1, err)
  | ERR => (ok, skip, err + 1)
  | DRYRUN => c
  end.

(** The loop [for i, img_path in enumerate(sorted(img_paths), 1)]; the
    boolean tells that [main] has returned from inside it. *)
Fixpoint file_loop (a : args) (site_id patient_id : string) (n_files : Z)
    (todo : list Path) (i : Z) (c : Z * Z * Z) (acc : progress)
    : IO (progress * (Z * Z * Z) * bool) :=
  match todo with
  | [] => ret (acc, c, false)
  | img_path :: rest =>
      let acc := count_file acc in
      let acc := say ("[SITE " +:+ site_id +:+ " | PATIENT " +:+ patient_id +:+ "] "
                      +:+ "[" +:+ str_int i +:+ "/" +:+ str_int n_files +:+ "] processing: "
                      +:+ name img_path) acc in
      r ←io process_one rt img_path (args_out a) (6, 2, 6) (args_force_shape a)
              (args_dry_run a) (args_overwrite a);
      let c := count_local r.1 c in
      let acc := count_status r.1 acc in
      let acc := say ("[" +:+ status_str r.1 +:+ "] " +:+ r.2) acc in
      if negb (args_max a =? 0) && (args_max a <=? grand_total acc) then
        let acc := say ("[INFO] Hit --max " +:+ str_int (args_max a) +:+ ", stopping early.")
                     acc in
        ret (say (done_line acc) acc, c, true)
      else file_loop a site_id patient_id n_files rest (i + 1) c acc
  end.

(** The loop [for patient_dir in sorted(patient_dirs)]. *)
Fixpoint patient_loop (a : args) (site_id : string) (todo : list Path) (acc : progress)
    : IO (progress * bool) :=
  match todo with
  | [] => ret (acc, false)
  | patient_dir :: rest =>
      let patient_id := name patient_dir in
      let vdir := patient_dir /: args_version a in
      has_vdir ←io exists_ vdir;
      if negb has_vdir then patient_loop a site_id rest acc
      else
        let cirrus_dir := vdir /: "sdoct_cirrus" in
        has_cirrus ←io exists_ cirrus_dir;
        if negb has_cirrus then patient_loop a site_id rest acc
        else
          img_paths ←io list_images cirrus_dir (args_pattern a);
          match img_paths with
          | [] => patient_loop a site_id rest acc
          | _ =>
              let n_files := Z.of_nat (length img_paths) in
              let acc := say ("[SITE " +:+ site_id +:+ " | PATIENT " +:+ patient_id
                              +:+ "] files to process: " +:+ str_int n_files) acc in
              r ←io file_loop a site_id patient_id n_files (sorted path_leb img_paths) 1
                      (0, 0, 0) acc;
              let '(acc, (ok, skip, err), returned) := r in
              if returned then ret (acc, true)
              else
                let acc := say ("[SITE " +:+ site_id +:+ " | PATIENT " +:+ patient_id
                                +:+ " SUMMARY] OK=" +:+ str_int ok +:+ " SKIP=" +:+ str_int skip
                                +:+ " ERR=" +:+ str_int err) acc in
                patient_loop a site_id rest acc
          end
  end.

(** The loop [for site_id in sites]. *)
Fixpoint site_loop (a : args) (todo : list string) (acc : progress) : IO (progress * bool) :=
  match todo with
  | [] => ret (acc, false)
  | site_id :: rest =>
      let site_dir := args_base a /: site_id in
      has_site ←io exists_ site_dir;
      if negb has_site then
        site_loop a rest (warn ("[WARN] site dir not found: " +:+ str site_dir) acc)
      else
        patient_dirs ←io iterdir_dirs site_dir;
        let acc := say ("[SITE " +:+ site_id +:+ "] patients found: "
                        +:+ str_int (Z.of_nat (length patient_dirs))) acc in
        r ←io patient_loop a site_id (sorted path_leb patient_dirs) acc;
        if r.2 then ret r else site_loop a rest r.1
  end.

(** [main], from the creation of the output root on. *)
Definition main (a : args) : IO progress :=
  _ ←io mkdir_parents_exist_ok (args_out a);
  sites ←io
    (if String.eqb (lower (args_site a)) "all" then
       ds ←io iterdir_dirs (args_base a);
       ret (sorted String.leb (name <$> ds))
     else ret [args_site a]);
  r ←io site_loop a sites (Progress 0 0 0 0 [] []);
  if r.2 then ret r.1 else ret (say (done_line r.1) r.1).

End Main.

(** *** Vocabulary of the statements on [main] *)

(** A computation keeps a relation between the world before it and the
    world after it, whether it returns or raises. *)
Definition preserves (R : world → world → Prop) {A} (m : IO A) : Prop :=
  ∀ σ r σ', m σ = (r, σ') → R σ σ'.

(** The trace has grown by events that all pass a test. *)
Definition adds (φ : event → bool) (σ σ' : world) : Prop :=
  ∃ evs, trace σ' = trace σ ++ evs ∧ forallb φ evs = true.

(** The tree has every path it had. *)
Definition keeps_paths (σ σ' : world) : Prop := extends (tree σ) (tree σ').

(** The regular files are the same, with the same contents. *)
Definition same_files (σ σ' : world) : Prop :=
  ∀ q c, resolve (tree σ') q = inr (File c) ↔ resolve (tree σ) q = inr (File c).

(** The files examined: [process_one] starts with [stat] on its source,
    and nothing else in the script calls [stat]. *)
Definition examined (evs : list event) : list Path :=
  omap (λ ev, match ev with EvStat p => Some p | _ => None end) evs.

Definition no_stat (ev : event) : bool :=
  match ev with EvStat _ => false | _ => true end.

(** The test of [main] on the name of a file, and the events that examine
    no other file. *)
Definition cube_name (p : Path) : bool := contains "200x200" (name p).

Definition stat_of_cube (ev : event) : bool :=
  match ev with EvStat p => cube_name p | _ => true end.


(** The counters agree with each other: in a real run every file counted
    is counted once more by its status; in a dry run only skipped files
    are. *)
Definition tallied (dry_run : bool) (acc : progress) : Prop :=
  0 ≤ grand_ok acc ∧ 0 ≤ grand_skip acc ∧ 0 ≤ grand_err acc
  ∧ if dry_run
    then grand_ok acc = 0 ∧ grand_err acc = 0 ∧ grand_skip acc ≤ grand_total acc
    else grand_ok acc + grand_skip acc + grand_err acc = grand_total acc.

(** What holds of [main] between two files, [k] files having been
    examined before it started; [returned] tells that it has returned
    from inside the loop over the files. *)
Definition counted (a : args) (k : nat) (returned : bool) (acc : progress) (σ : world)
    : Prop :=
  tallied (args_dry_run a) acc
  ∧ Z.of_nat (length (examined (trace σ))) = Z.of_nat k + grand_total acc
  ∧ (0 < args_max a →
     if returned then grand_total acc = args_max a else grand_total acc < args_max a)
  ∧ (returned = true → last (stdout acc) = Some (done_line acc)).


(** An rglob for the examples: the pattern [*.img] on the last part. *)
Fixpoint ends_with (suffix s : string) : bool :=
  String.eqb suffix s
  || match s with
     | EmptyString => false
     | String _ s' => ends_with suffix s'
     end.

Definition example_glob (pattern : string) (rel : Path) : bool :=
  match last rel with
  | Some nm => ends_with ".img" nm
  | None => false
  end.

(** A forest for the examples: under [/data/images], site s1 holds two
    patients with one and two matching files, and one file that does not
    match; the files have two bytes. *)
Definition example_forest : node :=
  dir [("/", dir [("data", dir [("images", dir [("s1", dir [
    ("p1", dir [("V3", dir [("sdoct_cirrus", dir [
       ("a_200x200.img", File [Byte.x01; Byte.x02]);
       ("notes.txt", File [Byte.x03])])])]);
    ("p2", dir [("V3", dir [("sdoct_cirrus", dir [
       ("E1", dir [("b_200x200.img", File [Byte.x04; Byte.x05])]);
       ("c_200x200.img", File [Byte.x06; Byte.x07]);
       ("d_512x128.img", File [Byte.x08; Byte.x09])])])])])])])])].

Definition example_args : args := {|
  args_base := ["/"; "data"; "images"];
  args_out := ["/"; "out"];
  args_site := "all";
  args_version := "V3";
  args_pattern := "*.img";
  args_max := 0;
  args_dry_run := false;
  args_force_shape := Some (1, 1, 2);
  args_overwrite := false
|}.

(** The same with a cap of two files, as a dry run, and for a site that
    is not there. *)
Definition example_capped_args : args := {|
  args_base := ["/"; "data"; "images"];
  args_out := ["/"; "out"];
  args_site := "all";
  args_version := "V3";
  args_pattern := "*.img";
  args_max := 2;
  args_dry_run := false;
  args_force_shape := Some (1, 1, 2);
  args_overwrite := false
|}.

Definition example_dry_args : args := {|
  args_base := ["/"; "data"; "images"];
  args_out := ["/"; "out"];
  args_site := "ALL";
  args_version := "V3";
  args_pattern := "*.img";
  args_max := 0;
  args_dry_run := true;
  args_force_shape := None;
  args_overwrite := false
|}.


End Batch.

(** * Properties *)

(** ** The decoder *)

Section DecoderFacts.
Import Decoder.

Lemma slice_in_bounds {A} (l : list A) (s e : Z) :
  0 <= s → s <= e → e <= Z.of_nat (length l) →
  Py.slice l s e = take (Z.to_nat (e - s)) (drop (Z.to_nat s) l).
Proof.
  intros Hs Hse He. unfold Py.slice, Py.clamp_index.
  destruct (Z.ltb_spec s 0); [lia|]. destruct (Z.ltb_spec e 0); [lia|].
  by rewrite !Z.min_l by lia.
Qed.

Lemma length_slice_in_bounds {A} (l : list A) (s e : Z) :
  0 <= s → s <= e → e <= Z.of_nat (length l) →
  Z.of_nat (length (Py.slice l s e)) = e - s.
Proof.
  intros Hs Hse He. rewrite slice_in_bounds by done.
  rewrite length_take, length_drop. lia.
Qed.

Lemma reshape2_exact (a : list Byte.byte) (h w : Z) :
  0 <= h → 0 <= w → Z.of_nat (length a) = h * w →
  Np.reshape2 a h w = Ret (Np.rows (Z.to_nat h) (Z.to_nat w) a).
Proof.
  intros Hh Hw Hlen. unfold Np.reshape2.
  destruct (Z.ltb_spec h (-1)); [lia|]. destruct (Z.ltb_spec w (-1)); [lia|].
  destruct (Z.eqb_spec h (-1)); [lia|]. destruct (Z.eqb_spec w (-1)); [lia|].
  simpl. destruct (Z.eqb_spec (h * w) (Z.of_nat (length a))); [done|lia].
Qed.

Lemma bscan_loop_ok (img_bytes : list Byte.byte) (h w : Z) (todo : list Z) (vol : list Np.array2) :
  0 <= h → 0 <= w →
  Forall (λ i, 0 <= i ∧ h * w * i + h * w <= Z.of_nat (length img_bytes)) todo →
  bscan_loop img_bytes h w (h * w) todo vol = Ret (vol ++ (frame_of img_bytes h w <$> todo)).
Proof.
  intros Hh Hw Htodo. revert vol.
  induction Htodo as [|i todo [Hi Hfit] _ IH]; intros vol; simpl.
  - by rewrite app_nil_r.
  - rewrite reshape2_exact; [|done|done|].
    + simpl. rewrite IH. by rewrite <-app_assoc.
    + rewrite length_slice_in_bounds; nia.
Qed.

Lemma range_bounds (d i : Z) : i ∈ Py.range d → 0 <= i < d.
Proof.
  unfold Py.range. intros (n & -> & Hn)%list_elem_of_fmap.
  apply elem_of_seq in Hn. lia.
Qed.

Lemma range_lookup (d i : Z) : 0 <= i < d → Py.range d !! Z.to_nat i = Some i.
Proof.
  intros Hi. unfold Py.range. rewrite list_lookup_fmap.
  rewrite lookup_seq_lt by lia. simpl. f_equal. lia.
Qed.

Lemma range_length (d : Z) : length (Py.range d) = Z.to_nat d.
Proof. unfold Py.range. by rewrite length_fmap, length_seq. Qed.

(** On a buffer of the right size and a shape with at least one frame,
    [read_img] returns the stacked frames and the spacing. *)
Lemma read_img_bytes_ok has_sitk p (img_bytes : list Byte.byte) (d h w : Z) mm :
  0 < d → 0 <= h → 0 <= w → Z.of_nat (length img_bytes) = d * h * w →
  ∃ sim,
    read_img_bytes has_sitk p img_bytes (d, h, w) mm
    = Ret (frame_of img_bytes h w <$> Py.range d,
           Np.divide3 (Np.array_float32 mm) (Np.array_float32 (d, h, w)), sim).
Proof.
  intros Hd Hh Hw Hlen. unfold read_img_bytes.
  destruct (Z.eqb_spec (Z.of_nat (length img_bytes)) (d * h * w)) as [_|]; [|done].
  simpl negb. cbv iota.
  rewrite bscan_loop_ok; [|done|done|].
  - cbn [Py.bind app].
    destruct (frame_of img_bytes h w <$> Py.range d) as [|f fs] eqn:Hfr.
    + apply (f_equal length) in Hfr. rewrite length_fmap, range_length in Hfr.
      simpl in Hfr. lia.
    + cbn [Np.stack Py.bind]. eauto.
  - apply Forall_forall. intros i Hi%range_bounds. nia.
Qed.

Lemma read_img_bytes_mismatch has_sitk p (img_bytes : list Byte.byte) (d h w : Z) mm :
  Z.of_nat (length img_bytes) ≠ d * h * w →
  read_img_bytes has_sitk p img_bytes (d, h, w) mm
  = Raise (ValueError (size_mismatch_msg p (Z.of_nat (length img_bytes)) (d * h * w) (d, h, w))).
Proof.
  intros Hne. unfold read_img_bytes.
  by destruct (Z.eqb_spec (Z.of_nat (length img_bytes)) (d * h * w)).
Qed.

(** With no frame to stack the decoder fails, whatever the buffer. *)
Lemma read_img_bytes_no_frame has_sitk p (img_bytes : list Byte.byte) (d h w : Z) mm :
  d <= 0 → is_ret (read_img_bytes has_sitk p img_bytes (d, h, w) mm) = false.
Proof.
  intros Hd. unfold read_img_bytes.
  destruct (negb _); [done|].
  unfold Py.range. replace (Z.to_nat d) with 0%nat by lia. done.
Qed.

Lemma string_app_assoc (a b c : string) : (a +:+ b) +:+ c = a +:+ (b +:+ c).
Proof.
  induction a as [|x a IH]; [done|].
  change (String x ((a +:+ b) +:+ c) = String x (a +:+ b +:+ c)). by rewrite IH.
Qed.

(** C1. Size invariant. For a buffer of length L and a shape (d,h,w):
    [read_img] succeeds only if L = d*h*w, and for a shape of positive
    integers it succeeds exactly when L = d*h*w; when L differs from
    d*h*w it raises the size-mismatch error, whose message holds, in this
    order, the actual count L, the expected count d*h*w and the shape. *)
Theorem read_img_size_invariant has_sitk p (img_bytes : list Byte.byte) (d h w : Z) mm :
  let L := Z.of_nat (length img_bytes) in
  (is_ret (read_img_bytes has_sitk p img_bytes (d, h, w) mm) = true → L = d * h * w)
  ∧ (0 < d → 0 < h → 0 < w →
     (is_ret (read_img_bytes has_sitk p img_bytes (d, h, w) mm) = true ↔ L = d * h * w))
  ∧ (L ≠ d * h * w →
     read_img_bytes has_sitk p img_bytes (d, h, w) mm
     = Raise (ValueError (size_mismatch_msg p L (d * h * w) (d, h, w))) ∧
     ∃ s0 s1 s2 s3,
       size_mismatch_msg p L (d * h * w) (d, h, w)
       = s0 +:+ str_int L +:+ s1 +:+ str_int (d * h * w) +:+ s2 +:+ str_tuple3 (d, h, w) +:+ s3).
Proof.
  intros L.
  assert (is_ret (read_img_bytes has_sitk p img_bytes (d, h, w) mm) = true → L = d * h * w)
    as Honly.
  { intros Hok. destruct (decide (L = d * h * w)) as [|Hne]; [done|].
    rewrite read_img_bytes_mismatch in Hok by done. done. }
  split; [exact Honly|]. split.
  - intros Hd Hh Hw. split; [exact Honly|]. intros HL.
    destruct (read_img_bytes_ok has_sitk p img_bytes d h w mm) as [sim ->]; [lia..|done|done].
  - intros Hne. split; [by apply read_img_bytes_mismatch|].
    unfold size_mismatch_msg.
    exists ("Size mismatch for " +:+ p +:+ ":" +:+ nl +:+ "  got    "),
      (" bytes" +:+ nl +:+ "  expect "), " bytes for shape ",
      (nl +:+ "  (hint: this file might not be a 200x200 cube or has different dimensions)").
    by rewrite !string_app_assoc.
Qed.

Lemma read_img_size_invariant_witness :
  (is_ret (read_img_bytes true "scan.img" [Byte.x0a; Byte.x0b] (1, 1, 2) (6, 2, 6)) = true
   ↔ Z.of_nat (length [Byte.x0a; Byte.x0b]) = 1 * 1 * 2) ∧
  is_ret (read_img_bytes true "scan.img" [Byte.x0a; Byte.x0b] (1, 1, 2) (6, 2, 6)) = true.
Proof.
  pose proof (read_img_size_invariant true "scan.img" [Byte.x0a; Byte.x0b] 1 1 2 (6, 2, 6))
    as (_ & Hiff & _).
  specialize (Hiff ltac:(lia) ltac:(lia) ltac:(lia)).
  split; [exact Hiff|]. apply Hiff. reflexivity.
Defined.

(** *** The frame transform *)

Lemma flat_index_bound (d h w i r c : Z) :
  0 <= i < d → 0 <= r < h → 0 <= c < w →
  0 <= i * h * w + r * w + c < d * h * w.
Proof.
  intros Hi Hr Hc.
  assert (0 <= r * w ∧ r * w + w <= h * w) as [? ?] by nia.
  assert (0 <= i * (h * w) ∧ i * (h * w) + h * w <= d * (h * w)) as [? ?] by nia.
  rewrite <-!Z.mul_assoc. lia.
Qed.

Lemma rows_lookup (h w r : nat) (a : list Byte.byte) :
  (r < h)%nat → Np.rows h w a !! r = Some (take w (drop (r * w) a)).
Proof.
  intros Hr. unfold Np.rows. rewrite list_lookup_fmap, lookup_seq_lt by done. done.
Qed.

Lemma length_rows (h w : nat) (a : list Byte.byte) : length (Np.rows h w a) = h.
Proof. unfold Np.rows. by rewrite length_fmap, length_seq. Qed.

Lemma flip_lookup (a : Np.array2) (r : nat) :
  (r < length a)%nat →
  Np.flip_rows_cols a !! r = reverse <$> a !! (length a - S r)%nat.
Proof.
  intros Hr. unfold Np.flip_rows_cols.
  rewrite reverse_lookup by (by rewrite length_fmap).
  by rewrite length_fmap, list_lookup_fmap.
Qed.

(** Element [(r, c)] of the flipped reshape of the [i]-th block of
    [h * w] bytes, all in natural numbers. *)
Lemma flipped_block_lookup (buf : list Byte.byte) (h w i r c : nat) :
  (S i * (h * w) <= length buf)%nat → (r < h)%nat → (c < w)%nat →
  (row ← Np.flip_rows_cols (Np.rows h w (take (h * w) (drop (i * (h * w)) buf))) !! r;
   row !! c)
  = buf !! (i * (h * w) + (h - 1 - r) * w + (w - 1 - c))%nat.
Proof.
  intros Hfit Hr Hc.
  rewrite flip_lookup by (by rewrite length_rows).
  rewrite length_rows, rows_lookup by lia. simpl.
  assert (length (take (h * w) (drop (i * (h * w)) buf)) = h * w)%nat as Hblock
    by (rewrite length_take, length_drop; lia).
  assert ((h - S r) * w + w <= h * w)%nat as Hrow by nia.
  rewrite reverse_lookup; rewrite length_take, length_drop, Hblock; [|lia].
  rewrite lookup_take_lt by lia.
  rewrite lookup_drop, lookup_take_lt by lia.
  rewrite lookup_drop. f_equal. nia.
Qed.

Lemma raw_frame_lookup (buf : list Byte.byte) (d h w i r c : Z) :
  Z.of_nat (length buf) = d * h * w →
  0 <= i < d → 0 <= r < h → 0 <= c < w →
  at2 (raw_frame buf h w i) r c = buf !! Z.to_nat (i * h * w + r * w + c).
Proof.
  intros Hlen Hi Hr Hc. unfold at2, raw_frame.
  rewrite slice_in_bounds by nia.
  rewrite rows_lookup by lia. simpl.
  assert (Z.to_nat ((i + 1) * h * w - i * h * w) = Z.to_nat h * Z.to_nat w)%nat as -> by nia.
  rewrite lookup_take_lt by lia.
  rewrite lookup_drop, lookup_take_lt by nia.
  rewrite lookup_drop. f_equal. nia.
Qed.

(** C2. Frame transform: on a buffer of length d*h*w the decoded volume
    has d frames; frame i is the row-major (h, w) reshape of the bytes
    [i*h*w, (i+1)*h*w) with rows and columns both reversed; so
    decoded[i][r][c] = raw_frame[h-1-r][w-1-c]
                     = buffer[i*h*w + (h-1-r)*w + (w-1-c)]. *)
Theorem read_img_frame_transform has_sitk p (img_bytes : list Byte.byte) (d h w : Z) mm
    (i r c : Z) :
  Z.of_nat (length img_bytes) = d * h * w →
  0 <= i < d → 0 <= r < h → 0 <= c < w →
  ∃ vol spacing sim b,
    read_img_bytes has_sitk p img_bytes (d, h, w) mm = Ret (vol, spacing, sim) ∧
    Z.of_nat (length vol) = d ∧
    vol !! Z.to_nat i = Some (Np.flip_rows_cols (raw_frame img_bytes h w i)) ∧
    at3 vol i r c = Some b ∧
    at2 (raw_frame img_bytes h w i) (h - 1 - r) (w - 1 - c) = Some b ∧
    img_bytes !! Z.to_nat (i * h * w + (h - 1 - r) * w + (w - 1 - c)) = Some b.
Proof.
  intros Hlen Hi Hr Hc.
  destruct (read_img_bytes_ok has_sitk p img_bytes d h w mm) as [sim Hread]; [lia..|done|].
  assert (Z.to_nat (i * h * w + (h - 1 - r) * w + (w - 1 - c)) < length img_bytes)%nat
    as [b Hb]%lookup_lt_is_Some.
  { pose proof (flat_index_bound d h w i (h - 1 - r) (w - 1 - c)). lia. }
  assert ((frame_of img_bytes h w <$> Py.range d) !! Z.to_nat i
          = Some (Np.flip_rows_cols (raw_frame img_bytes h w i))) as Hframe.
  { rewrite list_lookup_fmap, range_lookup by done. simpl.
    unfold frame_of, raw_frame. do 4 f_equal; lia. }
  eexists _, _, sim, b. split; [exact Hread|]. split; [|split; [exact Hframe|]].
  { rewrite length_fmap, range_length. lia. }
  split; [|split; [|done]].
  - unfold at3. rewrite Hframe. simpl. rewrite <-Hb.
    unfold raw_frame. rewrite slice_in_bounds by nia.
    assert (Z.to_nat ((i + 1) * h * w - i * h * w) = Z.to_nat h * Z.to_nat w)%nat as -> by nia.
    assert (Z.to_nat (i * h * w) = Z.to_nat i * (Z.to_nat h * Z.to_nat w))%nat as -> by nia.
    rewrite flipped_block_lookup by nia. f_equal; nia.
  - rewrite (raw_frame_lookup img_bytes d) by (done || lia). by rewrite <-Hb.
Qed.

Lemma read_img_frame_transform_witness :
  ∃ vol spacing sim b,
    read_img_bytes false "scan.img"
      [Byte.x01; Byte.x02; Byte.x03; Byte.x04; Byte.x05; Byte.x06;
       Byte.x07; Byte.x08; Byte.x09; Byte.x0a; Byte.x0b; Byte.x0c] (2, 3, 2) (6, 2, 6)
    = Ret (vol, spacing, sim) ∧ at3 vol 1 0 1 = Some b ∧ b = Byte.x0b.
Proof.
  destruct (read_img_frame_transform false "scan.img"
      [Byte.x01; Byte.x02; Byte.x03; Byte.x04; Byte.x05; Byte.x06;
       Byte.x07; Byte.x08; Byte.x09; Byte.x0a; Byte.x0b; Byte.x0c] 2 3 2 (6, 2, 6) 1 0 1
      ltac:(reflexivity) ltac:(lia) ltac:(lia) ltac:(lia))
    as (vol & spacing & sim & b & Hread & _ & _ & Hat & _ & Hbuf).
  exists vol, spacing, sim, b. split; [exact Hread|]. split; [exact Hat|].
  vm_compute in Hbuf. congruence.
Defined.

(** *** The shape resolver *)

Lemma find_first {A} (f : A → bool) (l : list A) :
  match find f l with
  | Some x => ∃ pre post, l = pre ++ x :: post ∧ f x = true ∧ Forall (λ y, f y = false) pre
  | None => Forall (λ y, f y = false) l
  end.
Proof.
  induction l as [|a l IH]; simpl; [done|].
  destruct (f a) eqn:Hfa.
  - by exists [], l.
  - destruct (find f l) as [x|].
    + destruct IH as (pre & post & -> & Hx & Hpre).
      exists (a :: pre), post. by repeat split; [|constructor].
    + by constructor.
Qed.

Lemma infer_shape_first (n_bytes : Z) :
  match infer_shape_from_filesize n_bytes with
  | Some s => ∃ pre post, known = pre ++ s :: post ∧ volume s = n_bytes
                          ∧ Forall (λ t, volume t ≠ n_bytes) pre
  | None => Forall (λ t, volume t ≠ n_bytes) known
  end.
Proof.
  unfold infer_shape_from_filesize.
  pose proof (find_first (λ '(d, h, w), d * h * w =? n_bytes) known) as Hfind.
  destruct (find _ known) as [[[d h] w]|].
  - destruct Hfind as (pre & post & Hk & Hs & Hpre). exists pre, post.
    split; [done|]. split; [simpl; lia|].
    eapply Forall_impl; [exact Hpre|]. intros [[d' h'] w'] Ht. simpl. lia.
  - eapply Forall_impl; [exact Hfind|]. intros [[d' h'] w'] Ht. simpl. lia.
Qed.

(** C4. Shape resolver: with no forced shape the result is the first
    registry triple whose product is the byte count, and the default
    (200,1024,200) when there is none; 200*1024*200 bytes resolve to
    (200,1024,200); a forced shape is returned as it is.  The resolver is
    a total function: it returns a shape on every input. *)
Theorem resolve_shape_spec :
  (∀ n_bytes,
     (∃ pre s post, known = pre ++ s :: post ∧ volume s = n_bytes
                    ∧ Forall (λ t, volume t ≠ n_bytes) pre
                    ∧ resolve_shape n_bytes None = s)
     ∨ (Forall (λ t, volume t ≠ n_bytes) known
        ∧ resolve_shape n_bytes None = (200, 1024, 200)))
  ∧ resolve_shape (200 * 1024 * 200) None = (200, 1024, 200)
  ∧ (∀ n_bytes s, resolve_shape n_bytes (Some s) = s).
Proof.
  split; [|split; [reflexivity|reflexivity]].
  intros n_bytes. unfold resolve_shape.
  pose proof (infer_shape_first n_bytes) as Hinf.
  destruct (infer_shape_from_filesize n_bytes) as [s|].
  - left. destruct Hinf as (pre & post & Hk & Hv & Hpre). by exists pre, s, post.
  - by right.
Qed.

(** The registry's only entry is the default triple. *)
Lemma resolve_shape_unforced (n_bytes : Z) :
  resolve_shape n_bytes None = (200, 1024, 200).
Proof.
  unfold resolve_shape, infer_shape_from_filesize, known. cbn [find].
  by destruct (Z.eqb _ n_bytes).
Qed.

(** *** The spacing *)

Lemma spacing_cirrus_cube :
  Np.divide3 (Np.array_float32 (6, 2, 6)) (Np.array_float32 (200, 1024, 200))
  = (f32_0_03, f32_2_pow_m9, f32_0_03).
Proof. vm_compute. reflexivity. Qed.

(** C6, as the code has it. The spacing returned by [read_img] is the
    float32 quotient, rounded to nearest, of the extent by the shape,
    component by component in (depth, height, width) order.  For shape
    (200,1024,200) and extent (6,2,6) it is (x, 0.001953125, x) where
    x = 16106127 * 2^-29 is the float32 nearest to 0.03: it differs from
    0.03 by less than 2^-30 and is not equal to it. *)
Theorem read_img_spacing has_sitk p (img_bytes : list Byte.byte) (d h w : Z) (ed eh ew : Z) :
  0 < d → 0 < h → 0 < w → Z.of_nat (length img_bytes) = d * h * w →
  ∃ vol sim,
    read_img_bytes has_sitk p img_bytes (d, h, w) (ed, eh, ew)
    = Ret (vol,
           (Np.float32_div (Np.float32_of_int ed) (Np.float32_of_int d),
            Np.float32_div (Np.float32_of_int eh) (Np.float32_of_int h),
            Np.float32_div (Np.float32_of_int ew) (Np.float32_of_int w)),
           sim)
    ∧ ((d, h, w) = (200, 1024, 200) → (ed, eh, ew) = (6, 2, 6) →
       read_img_bytes has_sitk p img_bytes (d, h, w) (ed, eh, ew)
       = Ret (vol, (f32_0_03, f32_2_pow_m9, f32_0_03), sim))
    ∧ (∃ x, float_value f32_0_03 = Some x
            ∧ Qlt x (3 # 100) ∧ Qlt (Qminus (3 # 100) x) (1 # 2 ^ 30))
    ∧ (∃ y, float_value f32_2_pow_m9 = Some y ∧ Qeq y (1 # 512)).
Proof.
  intros Hd Hh Hw Hlen.
  destruct (read_img_bytes_ok has_sitk p img_bytes d h w (ed, eh, ew)) as [sim Hread];
    [lia..|done|].
  eexists _, sim. split; [exact Hread|]. split.
  - intros [= -> -> ->] [= -> -> ->]. rewrite Hread. by rewrite spacing_cirrus_cube.
  - split; eexists; (split; [reflexivity|]); vm_compute; done.
Qed.

Lemma read_img_spacing_witness :
  ∃ vol sim,
    read_img_bytes false "scan.img" [Byte.x0a; Byte.x0b] (1, 1, 2) (6, 2, 6)
    = Ret (vol, (Np.float32_of_int 6, Np.float32_of_int 2, Np.float32_of_int 3), sim).
Proof.
  destruct (read_img_spacing false "scan.img" [Byte.x0a; Byte.x0b] 1 1 2 6 2 6
              ltac:(lia) ltac:(lia) ltac:(lia) ltac:(reflexivity))
    as (vol & sim & Hread & _).
  exists vol, sim. rewrite Hread. vm_compute. reflexivity.
Defined.

(** C6 as the claim words it fails: the quotient is rounded.  For shape
    (1,3,1) and extent (6,2,6) the middle spacing is not 2/3, and the
    spacing computed for (200,1024,200) and (6,2,6) does not start with
    the number 0.03. *)
Lemma read_img_spacing_not_exact :
  (∃ vol sz sy sx sim y,
     read_img_bytes false "scan.img" [Byte.x01; Byte.x02; Byte.x03] (1, 3, 1) (6, 2, 6)
     = Ret (vol, (sz, sy, sx), sim)
     ∧ float_value sy = Some y ∧ ¬ Qeq y (2 # 3))
  ∧ (∃ sz sy sx z,
     Np.divide3 (Np.array_float32 (6, 2, 6)) (Np.array_float32 (200, 1024, 200)) = (sz, sy, sx)
     ∧ float_value sz = Some z ∧ ¬ Qeq z (3 # 100)).
Proof.
  split.
  - eexists _, _, _, _, _, _. split; [vm_compute; reflexivity|].
    split; [reflexivity|]. vm_compute. discriminate.
  - eexists _, _, _, _. split; [vm_compute; reflexivity|].
    split; [reflexivity|]. vm_compute. discriminate.
Qed.

End DecoderFacts.

(** ** The output path mapper *)

Section MapperFacts.
Import PathLib Mapper.

Lemma append_cons (c : ascii) (s t : string) : String c s +:+ t = String c (s +:+ t).
Proof. reflexivity. Qed.

Lemma append_empty_r (s : string) : s +:+ EmptyString = s.
Proof. induction s as [|c s IH]; [done|]. by rewrite append_cons, IH. Qed.

Lemma unsafe_char_safe (c : ascii) : unsafe_char c = negb (safe_char c).
Proof.
  unfold unsafe_char, safe_char, is_word.
  by destruct (isalnum c), (bool_decide (c = "_"%char)),
    (bool_decide (c = "-"%char)), (bool_decide (c = "."%char)).
Qed.

Lemma re_sub_starts_safe (s : string) :
  starts_safe s = true →
  re_sub_runs unsafe_char "_" true s = re_sub_runs unsafe_char "_" false s.
Proof.
  destruct s as [|c s]; [done|]. simpl. rewrite unsafe_char_safe. by intros ->.
Qed.

(** The transform replaces the maximal runs, started or not. *)
Lemma re_sub_runs_replaced (s : string) :
  runs_replaced s (re_sub_runs unsafe_char "_" false s)
  ∧ ∀ c r, all_unsafe (String c r) = true →
      runs_replaced (String c r +:+ s) (String "_" (re_sub_runs unsafe_char "_" true s)).
Proof.
  induction s as [|a s [IH1 IH2]].
  - split; [constructor|]. intros c r Hr. simpl. by constructor; [| |constructor].
  - split.
    + simpl. rewrite unsafe_char_safe. destruct (safe_char a) eqn:Ha; simpl.
      * by constructor.
      * rewrite <-(append_empty_r (String a s)) at 1. rewrite append_cons.
        rewrite append_empty_r. change (String a s) with (String a EmptyString +:+ s).
        apply IH2. simpl. by rewrite Ha.
    + intros c r Hr. cbn [re_sub_runs]. rewrite unsafe_char_safe.
      destruct (safe_char a) eqn:Ha; simpl.
      * constructor; [done|by simpl|by constructor].
      * replace (String c r +:+ String a s) with (String c (r +:+ String a EmptyString) +:+ s).
        { apply IH2. simpl in *. apply andb_true_iff in Hr as [-> Hr]. simpl.
          clear -Hr Ha. induction r as [|x r IH]; simpl in *; [by rewrite Ha|].
          apply andb_true_iff in Hr as [-> Hr]. simpl. auto. }
        rewrite !append_cons. f_equal. clear. induction r as [|x r IH]; [done|].
        by rewrite !append_cons, IH.
Qed.

(** The relation determines the result. *)
Lemma runs_replaced_unique (s t : string) :
  runs_replaced s t → t = re_sub_runs unsafe_char "_" false s.
Proof.
  induction 1 as [|c s t Hc _ IH|c r s t Hr Hs _ IH].
  - done.
  - simpl. rewrite unsafe_char_safe, Hc. simpl. by rewrite IH.
  - rewrite append_cons. simpl in Hr. apply andb_true_iff in Hr as [Hc Hr].
    cbn [re_sub_runs]. rewrite unsafe_char_safe, Hc. change ("_" +:+ ?x) with (String "_" x).
    f_equal. rewrite IH, <-re_sub_starts_safe by done. clear -Hr.
    induction r as [|x r IHr]; [done|]. simpl in Hr. apply andb_true_iff in Hr as [Hx Hr].
    rewrite append_cons. cbn [re_sub_runs]. rewrite unsafe_char_safe, Hx. auto.
Qed.

Lemma safe_leaf_nonempty (s : string) :
  safe_leaf_foldername s = EmptyString → s = EmptyString.
Proof.
  unfold safe_leaf_foldername. destruct s as [|c s]; [done|]. simpl.
  by destruct (unsafe_char c).
Qed.

Lemma safe_leaf_dot (s : string) : safe_leaf_foldername s = "." → s = ".".
Proof.
  unfold safe_leaf_foldername. destruct s as [|c s]; [done|]. simpl.
  destruct (unsafe_char c); [done|]. intros [= -> Hs].
  by apply (safe_leaf_nonempty s) in Hs as ->.
Qed.

Lemma re_sub_no_sep (b : bool) (s : string) :
  has_sep (re_sub_runs unsafe_char "_" b s) = false.
Proof.
  revert b. induction s as [|c s IH]; intros b; [done|]. simpl.
  destruct (unsafe_char c) eqn:Hc.
  - destruct b; [done|]. change ("_" +:+ ?x) with (String "_" x). simpl. apply IH.
  - simpl. rewrite IH. rewrite orb_false_r. apply bool_decide_eq_false.
    intros ->. by vm_compute in Hc.
Qed.

(** A valid name stays one under the transform. *)
Lemma safe_leaf_valid (s : string) :
  valid_name s = true → valid_name (safe_leaf_foldername s) = true.
Proof.
  unfold valid_name. intros [[Hne Hdot]%andb_true_iff _]%andb_true_iff.
  apply negb_true_iff, bool_decide_eq_false in Hne, Hdot.
  rewrite !andb_true_iff, !negb_true_iff, !bool_decide_eq_false.
  split; [split|].
  - by intros ?%safe_leaf_nonempty.
  - by intros ?%safe_leaf_dot.
  - apply re_sub_no_sep.
Qed.

(** *** Paths *)

Lemma valid_name_not_special (s : string) :
  valid_name s = true → s ≠ root ∧ s ≠ EmptyString ∧ s ≠ ".".
Proof.
  unfold valid_name. intros [[Hne Hdot]%andb_true_iff Hsep]%andb_true_iff.
  apply negb_true_iff, bool_decide_eq_false in Hne, Hdot.
  repeat split; [|done|done]. intros ->. by vm_compute in Hsep.
Qed.

Lemma is_anchor_valid (s : string) : valid_name s = true → is_anchor s = false.
Proof.
  unfold valid_name, is_anchor. intros [_ Hsep%negb_true_iff]%andb_true_iff.
  apply orb_false_iff. split; apply bool_decide_eq_false; intros ->; by vm_compute in Hsep.
Qed.

Lemma has_anchor_valid (l : list string) :
  forallb valid_name l = true → has_anchor l = false.
Proof.
  destruct l as [|s l]; [done|]. simpl.
  intros [Hs _]%andb_true_iff. by apply is_anchor_valid.
Qed.

Lemma join_valid (p q : Path) : forallb valid_name q = true → p // q = p ++ q.
Proof. intros Hq. unfold join. by rewrite has_anchor_valid. Qed.

Lemma lstrip_sep_name (s : string) : has_sep s = false → lstrip_sep s = s.
Proof.
  destruct s as [|c s]; [done|]. cbn [has_sep lstrip_sep].
  intros [Hc _]%orb_false_iff. by rewrite Hc.
Qed.

Lemma split_sep_name (cur s : string) : has_sep s = false → split_sep cur s = [cur +:+ s].
Proof.
  revert cur. induction s as [|c s IH]; intros cur; cbn [has_sep split_sep].
  - intros _. by rewrite append_empty_r.
  - intros [Hc Hs]%orb_false_iff. rewrite Hc, IH by done.
    rewrite string_app_assoc. reflexivity.
Qed.

(** A name is read as itself. *)
Lemma parse_str_valid (s : string) : valid_name s = true → parse_str s = [s].
Proof.
  intros Hv. pose proof Hv as (_ & Hne & Hdot)%valid_name_not_special.
  unfold valid_name in Hv. apply andb_true_iff in Hv as [_ Hsep%negb_true_iff].
  unfold parse_str, anchor_of. rewrite lstrip_sep_name by done.
  rewrite Nat.sub_diag. cbn [Nat.eqb app]. rewrite split_sep_name by done.
  change (EmptyString +:+ s) with s. rewrite filter_cons_True by done. done.
Qed.

Lemma add_component_valid (acc : Path) (s : string) :
  valid_name s = true → add_component acc s = acc ++ [s].
Proof.
  intros Hs. unfold add_component. rewrite parse_str_valid by done.
  apply join_valid. simpl. by rewrite Hs.
Qed.

Lemma Path_of_valid (l : list string) :
  forallb valid_name l = true → Path_of l = l.
Proof.
  unfold Path_of. change l with ([] ++ l) at 3. generalize (@nil string) as acc.
  induction l as [|s l IH]; intros acc Hl; simpl.
  - by rewrite app_nil_r.
  - apply andb_true_iff in Hl as [Hs Hl].
    rewrite add_component_valid, IH by done. by rewrite <-app_assoc.
Qed.

Lemma join_str_valid (p : Path) (s : string) : valid_name s = true → p /: s = p ++ [s].
Proof.
  intros Hs. unfold join_str. rewrite Path_of_valid by (simpl; by rewrite Hs).
  apply join_valid. simpl. by rewrite Hs.
Qed.

Lemma index_first (x : string) (pre post : list string) :
  x ∉ pre → index x (pre ++ x :: post) = Ret (Z.of_nat (length pre)).
Proof.
  induction pre as [|y pre IH]; intros Hpre; simpl.
  - by rewrite bool_decide_eq_true_2.
  - apply not_elem_of_cons in Hpre as [Hne Hpre].
    rewrite bool_decide_eq_false_2 by done. rewrite IH by done. simpl. f_equal. lia.
Qed.

Lemma index_absent (x : string) (l : list string) :
  x ∉ l → ∃ e, index x l = Raise e.
Proof.
  induction l as [|y l IH]; intros Hl; simpl; [eauto|].
  apply not_elem_of_cons in Hl as [Hne Hl].
  rewrite bool_decide_eq_false_2 by done. destruct (IH Hl) as [e ->]. simpl. eauto.
Qed.

Lemma slice_after (pre post : list string) (x : string) :
  Py.slice (pre ++ x :: post) (Z.of_nat (length pre) + 1)
    (Z.of_nat (length (pre ++ x :: post))) = post.
Proof.
  rewrite slice_in_bounds; rewrite ?length_app; simpl; try lia.
  replace (Z.to_nat (Z.of_nat (length pre) + 1)) with (length (pre ++ [x]))
    by (rewrite length_app; simpl; lia).
  rewrite (cons_middle x pre post), app_assoc, drop_app_length.
  apply take_ge. lia.
Qed.

(** The names of a path that follow one of its parts are names. *)
Lemma wf_after (pre post : list string) (x : string) :
  wf (pre ++ x :: post) = true → forallb valid_name post = true.
Proof.
  assert (∀ l, forallb valid_name (l ++ x :: post) = true →
               forallb valid_name post = true) as Hsuffix.
  { intros l. rewrite forallb_app. simpl. rewrite !andb_true_iff. tauto. }
  unfold wf, names. destruct (has_anchor _).
  - destruct pre as [|y pre]; simpl; [done|]. apply Hsuffix.
  - apply Hsuffix.
Qed.

Lemma relative_under_images_found (pre post : list string) :
  wf (pre ++ "images" :: post) = true → "images" ∉ pre →
  relative_under_images (pre ++ "images" :: post) = post.
Proof.
  intros Hwf Hpre. unfold relative_under_images.
  rewrite index_first by done. rewrite slice_after.
  apply Path_of_valid. by eapply wf_after.
Qed.

Lemma name_snoc (init : list string) (nm : string) :
  forallb valid_name (init ++ [nm]) = true → name (init ++ [nm]) = nm.
Proof.
  intros Hv. unfold name. rewrite has_anchor_valid by done.
  rewrite length_app. simpl. replace (length init + 1 =? 0)%nat with false.
  - by rewrite last_snoc.
  - symmetry. apply Nat.eqb_neq. lia.
Qed.

Lemma parent_snoc (init : list string) (nm : string) :
  forallb valid_name (init ++ [nm]) = true → parent (init ++ [nm]) = init.
Proof.
  intros Hv. unfold parent. rewrite has_anchor_valid by done. simpl.
  apply removelast_last.
Qed.

Lemma out_dir_of_rel (out_root img_path : Path) (init : list string) (nm : string) :
  relative_under_images img_path = init ++ [nm] →
  forallb valid_name (init ++ [nm]) = true →
  out_dir_of out_root img_path = out_root ++ init ++ [safe_leaf_foldername nm].
Proof.
  intros Hrel Hv. unfold out_dir_of. rewrite Hrel, name_snoc, parent_snoc by done.
  rewrite forallb_app in Hv. apply andb_true_iff in Hv as [Hinit Hnm].
  simpl in Hnm. rewrite andb_true_r in Hnm.
  rewrite join_valid by done. rewrite join_str_valid by (by apply safe_leaf_valid).
  by rewrite <-app_assoc.
Qed.

(** The name of a well-formed path that has one is valid. *)
Lemma name_valid (p : Path) :
  wf p = true → names p ≠ [] →
  valid_name (name p) = true ∧ ∃ init, p = init ++ [name p].
Proof.
  intros Hwf Hnames. unfold wf in Hwf. unfold name, names in *.
  destruct p as [|s p] using rev_ind; [by destruct (has_anchor [])|].
  clear IHp. rewrite length_app, last_snoc. simpl.
  destruct (has_anchor (p ++ [s])) eqn:Ha.
  - destruct p as [|y p]; [done|]. simpl in *.
    replace (length p + 1 =? 0)%nat with false by (symmetry; apply Nat.eqb_neq; lia).
    rewrite forallb_app in Hwf. apply andb_true_iff in Hwf as [_ Hs]. simpl in Hs.
    rewrite andb_true_r in Hs. split; [done|by exists (y :: p)].
  - replace (length p + 1 =? 0)%nat with false by (symmetry; apply Nat.eqb_neq; lia).
    rewrite forallb_app in Hwf. apply andb_true_iff in Hwf as [_ Hs]. simpl in Hs.
    rewrite andb_true_r in Hs. split; [done|by exists p].
Qed.

(** C5. Output path mapping, for a well-formed source path and relative
    to the output root.  When the path has a part named images, the
    output directory is made of the parts after the first such part, in
    order, the last one (the file name) transformed and the others
    untouched; with nothing after the marker it is the output root
    itself.  When no part is named images, it is the transformed file
    name alone.  The transform replaces every maximal run of characters
    outside [alphanumeric _ . -] by one underscore, and is the only
    string doing so.  The mapping is a function of the two paths only. *)
Theorem out_dir_mapping (out_root img_path : Path) :
  wf img_path = true →
  (∀ pre init nm,
     img_path = pre ++ "images" :: init ++ [nm] → "images" ∉ pre →
     out_dir_of out_root img_path = out_root ++ init ++ [safe_leaf_foldername nm])
  ∧ (∀ pre, img_path = pre ++ ["images"] → "images" ∉ pre →
     out_dir_of out_root img_path = out_root)
  ∧ ("images" ∉ img_path → names img_path ≠ [] →
     out_dir_of out_root img_path = out_root ++ [safe_leaf_foldername (name img_path)])
  ∧ (∀ s t, runs_replaced s t ↔ t = safe_leaf_foldername s).
Proof.
  intros Hwf. split; [|split; [|split]].
  - intros pre init nm -> Hpre.
    apply out_dir_of_rel; [by apply relative_under_images_found|by eapply wf_after].
  - intros pre -> Hpre. unfold out_dir_of.
    rewrite relative_under_images_found by done.
    change (parent []) with (@nil string). change (name []) with EmptyString.
    unfold join_str. change (Path_of [safe_leaf_foldername EmptyString]) with (@nil string).
    unfold join. simpl. by rewrite !app_nil_r.
  - intros Hno Hnames. destruct (name_valid img_path Hwf Hnames) as [Hv [init Hp]].
    assert (relative_under_images img_path = [] ++ [name img_path]) as Hrel.
    { unfold relative_under_images. destruct (index_absent "images" img_path Hno) as [e ->].
      apply Path_of_valid. simpl. by rewrite Hv. }
    rewrite (out_dir_of_rel out_root img_path [] (name img_path) Hrel); [done|].
    simpl. by rewrite Hv.
  - intros s t. split; [apply runs_replaced_unique|].
    intros ->. apply re_sub_runs_replaced.
Qed.

Lemma out_dir_mapping_witness :
  out_dir_of ["/"; "out"] ["/"; "data"; "images"; "s1"; "p7"; "V3"; "scan 200x200 (1).img"]
  = ["/"; "out"; "s1"; "p7"; "V3"; "scan_200x200_1_.img"].
Proof.
  pose proof (out_dir_mapping ["/"; "out"]
                ["/"; "data"; "images"; "s1"; "p7"; "V3"; "scan 200x200 (1).img"]
                ltac:(reflexivity)) as [Hfound _].
  rewrite (Hfound ["/"; "data"] ["s1"; "p7"; "V3"] "scan 200x200 (1).img");
    [reflexivity|reflexivity|].
  intros Hin. by repeat (apply elem_of_cons in Hin as [?|Hin]; [done|]); inversion Hin.
Defined.

End MapperFacts.

(** ** The file system *)

Section FSFacts.
Import PathLib FS.

Lemma resolve_app (n : node) (p q : Path) :
  resolve n (p ++ q)
  = match resolve n p with inr m => resolve m q | inl e => inl e end.
Proof.
  revert n. induction p as [|s p IH]; intros n; simpl; [done|].
  destruct n as [c|ch]; [done|]. by destruct (ch !! s).
Qed.

(** What exists lies in a directory. *)
Lemma resolve_parent (n : node) (p : Path) (s : string) (x : node) :
  resolve n (p ++ [s]) = inr x → ∃ ch, resolve n p = inr (Dir ch) ∧ ch !! s = Some x.
Proof.
  rewrite resolve_app. destruct (resolve n p) as [e|[c|ch]]; simpl; [done..|].
  destruct (ch !! s) as [m|] eqn:Hs; [|done]. intros [= ->]. eauto.
Qed.

(** [mkdir -p] on an existing directory changes nothing. *)
Lemma mkdir_p_exists (n : node) (p : Path) (ch : gmap string node) :
  resolve n p = inr (Dir ch) → mkdir_p n p = inr n.
Proof.
  revert n. induction p as [|s p IH]; intros n; simpl.
  - by intros [= ->].
  - destruct n as [c|ch0]; [done|].
    destruct (ch0 !! s) as [m|] eqn:Hs; [|done]. intros Hm. simpl.
    rewrite (IH m Hm). by rewrite insert_id.
Qed.

(** After [mkdir -p] the path is a directory. *)
Lemma mkdir_p_dir (n n' : node) (p : Path) :
  mkdir_p n p = inr n' → ∃ ch, resolve n' p = inr (Dir ch).
Proof.
  revert n n'. induction p as [|s p IH]; intros n n'; simpl.
  - destruct n; [done|]. intros [= <-]. eauto.
  - destruct n as [c|ch0]; [done|].
    destruct (mkdir_p _ p) as [e|m] eqn:Hm; [done|]. intros [= <-].
    rewrite lookup_insert_eq. eauto.
Qed.

Lemma keeps_files_extends (t t' : node) : keeps_files t t' → extends t t'.
Proof. intros H q x Hq. specialize (H q x Hq). destruct x; [eauto|]. destruct H; eauto. Qed.

Lemma extends_refl (t : node) : extends t t.
Proof. intros q x Hq. eauto. Qed.

Lemma extends_trans (t1 t2 t3 : node) : extends t1 t2 → extends t2 t3 → extends t1 t3.
Proof. intros H12 H23 q x Hq. destruct (H12 q x Hq) as [x' Hx']. eauto. Qed.

Lemma mkdir_p_keeps_files (n n' : node) (p : Path) :
  mkdir_p n p = inr n' → keeps_files n n'.
Proof.
  revert n n'. induction p as [|s p IH]; intros n n'; simpl.
  - destruct n; [done|]. intros [= <-] q x Hq. rewrite Hq. destruct x; eauto.
  - destruct n as [c|ch0]; [done|].
    destruct (mkdir_p _ p) as [e|m] eqn:Hm; [done|]. intros [= <-] q x.
    destruct q as [|s' q]; simpl.
    + intros [= <-]. eauto.
    + destruct (decide (s = s')) as [<-|Hne].
      * rewrite lookup_insert_eq. destruct (ch0 !! s) as [m0|] eqn:Hs; [|done].
        simpl in Hm. apply (IH _ _ Hm).
      * rewrite lookup_insert_ne by done. destruct (ch0 !! s'); [|done].
        intros ->. destruct x; eauto.
Qed.

(** A written file is there. *)
Lemma write_resolve (n n' : node) (p : Path) (c : list Byte.byte) :
  write n p c = inr n' → resolve n' p = inr (File c).
Proof.
  revert n n'. induction p as [|s p IH]; intros n n'; simpl.
  - destruct n; [|done]. by intros [= <-].
  - destruct n as [c0|ch0]; [done|]. destruct (ch0 !! s) as [m|] eqn:Hs.
    + destruct (write m p c) as [e|m'] eqn:Hw; [done|]. intros [= <-].
      rewrite lookup_insert_eq. eauto.
    + destruct p; [|done]. intros [= <-]. by rewrite lookup_insert_eq.
Qed.

Lemma write_extends (n n' : node) (p : Path) (c : list Byte.byte) :
  write n p c = inr n' → extends n n'.
Proof.
  revert n n'. induction p as [|s p IH]; intros n n'; simpl.
  - destruct n; [|done]. intros [= <-] q x. destruct q; simpl; [eauto|done].
  - destruct n as [c0|ch0]; [done|]. intros Hw q x.
    destruct q as [|s' q]; simpl.
    { intros _. by exists n'. }
    destruct (ch0 !! s) as [m|] eqn:Hs.
    + destruct (write m p c) as [e|m'] eqn:Hwm; [done|]. injection Hw as <-.
      destruct (decide (s = s')) as [<-|Hne].
      * rewrite Hs, lookup_insert_eq. apply (IH _ _ Hwm).
      * rewrite lookup_insert_ne by done. destruct (ch0 !! s'); eauto.
    + destruct p; [|done]. injection Hw as <-.
      destruct (decide (s = s')) as [<-|Hne]; [by rewrite Hs|].
      rewrite lookup_insert_ne by done. destruct (ch0 !! s'); eauto.
Qed.

(** Writing a file leaves its siblings alone. *)
Lemma write_sibling (n n' : node) (d : Path) (a b : string) (c : list Byte.byte) :
  write n (d ++ [a]) c = inr n' → a ≠ b →
  resolve n' (d ++ [b]) = resolve n (d ++ [b]).
Proof.
  revert n n'. induction d as [|s d IH]; intros n n' Hw Hab; simpl in *.
  - destruct n as [c0|ch0]; [done|].
    destruct (ch0 !! a) as [[c1|ch1]|]; simplify_eq; by rewrite lookup_insert_ne.
  - destruct n as [c0|ch0]; [done|]. destruct (ch0 !! s) as [m|] eqn:Hs.
    + destruct (write m _ c) as [e|m'] eqn:Hwm; [done|]. injection Hw as <-.
      rewrite lookup_insert_eq. eauto.
    + by destruct d.
Qed.

(** Writing into an existing directory that holds no directory of that
    name succeeds and adds the file to it. *)
Lemma write_in_dir (n : node) (d : Path) (s : string) (ch : gmap string node)
    (c : list Byte.byte) :
  resolve n d = inr (Dir ch) → (∀ ch', ch !! s ≠ Some (Dir ch')) →
  ∃ n', write n (d ++ [s]) c = inr n' ∧ resolve n' d = inr (Dir (<[s := File c]> ch)).
Proof.
  revert n. induction d as [|s0 d IH]; intros n Hd Hs; simpl in *.
  - injection Hd as ->. destruct (ch !! s) as [[c1|ch1]|] eqn:Hl; [eauto| |eauto].
    by destruct (Hs ch1).
  - destruct n as [c0|ch0]; [done|]. destruct (ch0 !! s0) as [m|] eqn:Hm; [|done].
    destruct (IH m Hd Hs) as (m' & -> & Hm'). eexists. split; [done|].
    cbn iota. by rewrite lookup_insert_eq.
Qed.

End FSFacts.

(** ** The conversion state machine *)

Section ProcessFacts.
Import PathLib Mapper Decoder FS Zeiss.
Context (rt : runtime).

Lemma artifact_path (out_dir : Path) (s : string) :
  valid_name s = true → out_dir /: s = out_dir ++ [s].
Proof. apply join_str_valid. Qed.

Lemma present_true (t : node) (p : Path) :
  present t p = true ↔ ∃ x, resolve t p = inr x.
Proof. unfold present. destruct (resolve t p); split; [done|by intros [? ?]|eauto|done]. Qed.

(** The directory of an artifact that is present exists. *)
Lemma artifact_dir (t : node) (out_dir : Path) (s : string) :
  valid_name s = true → present t (out_dir /: s) = true →
  ∃ ch, resolve t out_dir = inr (Dir ch).
Proof.
  intros Hs [x Hx]%present_true. rewrite artifact_path in Hx by done.
  apply resolve_parent in Hx as (ch & Hch & _). eauto.
Qed.

(** *** Running the monad *)

Lemma bind_ret {A B} (m : IO A) (k : A → IO B) (σ σ' : world) (a : A) :
  m σ = (Ret a, σ') → FS.bind m k σ = k a σ'.
Proof. unfold FS.bind. by intros ->. Qed.

Lemma bind_raise {A B} (m : IO A) (k : A → IO B) (σ σ' : world) (e : exn) :
  m σ = (Raise e, σ') → FS.bind m k σ = (Raise e, σ').
Proof. unfold FS.bind. by intros ->. Qed.

Lemma bind_inv {A B} (m : IO A) (k : A → IO B) (σ σ2 : world) (r : result B) :
  FS.bind m k σ = (r, σ2) →
  (∃ a σ1, m σ = (Ret a, σ1) ∧ k a σ1 = (r, σ2))
  ∨ (∃ e, m σ = (Raise e, σ2) ∧ r = Raise e).
Proof.
  unfold FS.bind. destruct (m σ) as [[a|e] σ1]; [by left; eauto|].
  intros [= <- <-]. right. eauto.
Qed.

Lemma try_inv {A} (m : IO A) (h : exn → IO A) (σ σ2 : world) (r : result A) :
  try_except m h σ = (r, σ2) →
  (∃ a, m σ = (Ret a, σ2) ∧ r = Ret a)
  ∨ (∃ e σ1, m σ = (Raise e, σ1) ∧ h e σ1 = (r, σ2)).
Proof.
  unfold try_except. destruct (m σ) as [[a|e] σ1]; [|by right; eauto].
  intros [= <- <-]. left. eauto.
Qed.

Lemma stat_run (p : Path) (t : node) (tr : list event) :
  stat_st_size rt p (World t tr)
  = match resolve t p with
    | inr n => (Ret (st_size rt n), World t (tr ++ [EvStat p]))
    | inl code => (Raise (OSError code (str p)), World t (tr ++ [EvStat p]))
    end.
Proof. unfold stat_st_size, FS.bind. simpl. by destruct (resolve t p) as [|[]]. Qed.

Lemma mkdir_run (p : Path) (t : node) (tr : list event) :
  mkdir_parents_exist_ok p (World t tr)
  = match mkdir_p t p with
    | inr t' => (Ret tt, World t' (tr ++ [EvMkdir p]))
    | inl code => (Raise (OSError code (str p)), World t (tr ++ [EvMkdir p]))
    end.
Proof. unfold mkdir_parents_exist_ok, FS.bind. simpl. by destruct (mkdir_p t p). Qed.

Lemma exists_run (p : Path) (t : node) (tr : list event) :
  exists_ p (World t tr) = (Ret (present t p), World t (tr ++ [EvExists p])).
Proof. reflexivity. Qed.

Lemma fromfile_run (p : Path) (t : node) (tr : list event) :
  np_fromfile p (World t tr)
  = match resolve t p with
    | inr (File c) => (Ret c, World t (tr ++ [EvRead p]))
    | inr (Dir _) => (Raise (OSError EISDIR (str p)), World t (tr ++ [EvRead p]))
    | inl code => (Raise (OSError code (str p)), World t (tr ++ [EvRead p]))
    end.
Proof. unfold np_fromfile, FS.bind. simpl. by destruct (resolve t p) as [|[]]. Qed.

Lemma write_run (p : Path) (c : list Byte.byte) (t : node) (tr : list event) :
  write_file p c (World t tr)
  = match write t p c with
    | inr t' => (Ret tt, World t' (tr ++ [EvWrite p]))
    | inl code => (Raise (OSError code (str p)), World t (tr ++ [EvWrite p]))
    end.
Proof. unfold write_file, FS.bind. simpl. by destruct (write t p c). Qed.

(** [process_one] is the composition of its phases. *)
Lemma process_one_phases (img_path out_root : Path) mm force_shape (dry_run overwrite : bool)
    (σ : world) :
  process_one rt img_path out_root mm force_shape dry_run overwrite σ
  = (n_bytes ←io stat_st_size rt img_path;
     let out_dir := out_dir_of out_root img_path in
     _ ←io mkdir_parents_exist_ok out_dir;
     dn ←io check_already_done out_dir;
     if dn && negb overwrite then ret (SKIP, str img_path)
     else if dry_run then ret (DRYRUN, str img_path)
     else try_except
            (convert rt img_path out_dir (relative_under_images img_path)
               (resolve_shape n_bytes force_shape) mm n_bytes)
            (record_error rt img_path out_dir)) σ.
Proof.
  unfold process_one, check_already_done, out_dir_of, convert, write_nii, meta_of,
    try_except, FS.bind.
  destruct (stat_st_size rt img_path σ) as [[n_bytes|e] σ1]; [|done].
  destruct (mkdir_parents_exist_ok _ σ1) as [[[]|e] σ2]; [|done].
  destruct (and_ _ _ σ2) as [[dn|e] σ3]; [|done].
  destruct (dn && negb overwrite); [done|]. destruct dry_run; [done|].
  destruct (read_img _ _ _ _ σ3) as [[[[vol [[sz sy] sx]] sim]|e] σ4]; [|done].
  by destruct (resolve_shape n_bytes force_shape) as [[d h] w].
Qed.

(** *** The phases *)

Lemma check_run (out_dir : Path) (t : node) (tr : list event) :
  check_already_done out_dir (World t tr)
  = (Ret (already_done t out_dir), World t (tr ++ done_events t out_dir)).
Proof.
  unfold check_already_done, and_, already_done, done_events, meta_json, vol_npy, spacing_npy.
  unfold FS.bind at 1. unfold FS.bind at 1. rewrite exists_run. cbn iota.
  destruct (present t (out_dir /: "meta.json")); cbn [andb].
  - rewrite exists_run. destruct (present t (out_dir /: "vol.npy")); cbn [andb].
    + rewrite exists_run. by rewrite <-!app_assoc.
    + unfold ret. by rewrite <-!app_assoc.
  - reflexivity.
Qed.

Lemma done_events_quiet (t : node) (out_dir : Path) :
  forallb quiet (done_events t out_dir) = true.
Proof.
  unfold done_events.
  by destruct (present t (meta_json out_dir)), (present t (vol_npy out_dir)).
Qed.

Lemma grows_ret {A} (a : A) : grows (ret a).
Proof. intros σ r σ' [= <- <-]. apply extends_refl. Qed.

Lemma grows_lift {A} (x : result A) : grows (lift x).
Proof. intros σ r σ' [= <- <-]. apply extends_refl. Qed.

Lemma grows_bind {A B} (m : IO A) (k : A → IO B) :
  grows m → (∀ a, grows (k a)) → grows (FS.bind m k).
Proof.
  intros Hm Hk σ r σ' [(a & σ1 & Hma & Hka)|(e & Hme & _)]%bind_inv.
  - eapply extends_trans; [by eapply Hm|by eapply Hk].
  - by eapply Hm.
Qed.

Lemma grows_try {A} (m : IO A) (h : exn → IO A) :
  grows m → (∀ e, grows (h e)) → grows (try_except m h).
Proof.
  intros Hm Hh σ r σ' [(a & Hma & _)|(e & σ1 & Hme & Hhe)]%try_inv.
  - by eapply Hm.
  - eapply extends_trans; [by eapply Hm|by eapply Hh].
Qed.

Lemma grows_stat (p : Path) : grows (stat_st_size rt p).
Proof.
  intros [t tr] r σ'. rewrite stat_run.
  destruct (resolve t p); intros [= <- <-]; apply extends_refl.
Qed.

Lemma grows_mkdir (p : Path) : grows (mkdir_parents_exist_ok p).
Proof.
  intros [t tr] r σ'. rewrite mkdir_run.
  destruct (mkdir_p t p) eqn:Hmk; intros [= <- <-]; [apply extends_refl|].
  by eapply keeps_files_extends, mkdir_p_keeps_files.
Qed.

Lemma grows_check (p : Path) : grows (check_already_done p).
Proof. intros [t tr] r σ'. rewrite check_run. intros [= <- <-]. apply extends_refl. Qed.

Lemma grows_fromfile (p : Path) : grows (np_fromfile p).
Proof.
  intros [t tr] r σ'. rewrite fromfile_run.
  destruct (resolve t p) as [|[]]; intros [= <- <-]; apply extends_refl.
Qed.

Lemma grows_write (p : Path) (c : list Byte.byte) : grows (write_file p c).
Proof.
  intros [t tr] r σ'. rewrite write_run.
  destruct (write t p c) eqn:Hw; intros [= <- <-]; [apply extends_refl|].
  by eapply write_extends.
Qed.

Lemma grows_write_nii (out_dir : Path) sim : grows (write_nii rt out_dir sim).
Proof.
  unfold write_nii. destruct sim; [|apply grows_ret].
  destruct (HAS_SITK rt); [|apply grows_ret].
  apply grows_bind; [apply grows_write|intros; apply grows_ret].
Qed.

Lemma grows_convert img_path out_dir rel shape mm n_bytes :
  grows (convert rt img_path out_dir rel shape mm n_bytes).
Proof.
  unfold convert, read_img.
  apply grows_bind; [|intros r].
  { apply grows_bind; [apply grows_fromfile|intros; apply grows_lift]. }
  apply grows_bind; [apply grows_write|intros _].
  apply grows_bind; [apply grows_write|intros _].
  apply grows_bind; [apply grows_write_nii|intros sw].
  apply grows_bind; [apply grows_write|intros _]. apply grows_ret.
Qed.

Lemma grows_record_error img_path out_dir e : grows (record_error rt img_path out_dir e).
Proof.
  unfold record_error. apply grows_bind; [apply grows_write|intros; apply grows_ret].
Qed.

Lemma grows_process_one img_path out_root mm force_shape dry_run overwrite :
  grows (process_one rt img_path out_root mm force_shape dry_run overwrite).
Proof.
  intros σ r σ'. rewrite process_one_phases. revert σ r σ'.
  apply grows_bind; [apply grows_stat|intros n_bytes].
  apply grows_bind; [apply grows_mkdir|intros _].
  apply grows_bind; [apply grows_check|intros dn].
  destruct (dn && negb overwrite); [apply grows_ret|].
  destruct dry_run; [apply grows_ret|].
  apply grows_try; [apply grows_convert|apply grows_record_error].
Qed.

(** *** Writing the artifacts *)

Lemma no_dir_at_insert (ch : gmap string node) (s s' : string) (c : list Byte.byte) :
  no_dir_at ch s = true → no_dir_at (<[s' := File c]> ch) s = true.
Proof.
  unfold no_dir_at. destruct (decide (s' = s)) as [->|Hne].
  - by rewrite lookup_insert_eq.
  - by rewrite lookup_insert_ne.
Qed.

Lemma write_file_in_dir (d : Path) (s : string) (c : list Byte.byte)
    (t : node) (tr : list event) (ch : gmap string node) :
  valid_name s = true → resolve t d = inr (Dir ch) → no_dir_at ch s = true →
  ∃ t', write_file (d /: s) c (World t tr) = (Ret tt, World t' (tr ++ [EvWrite (d /: s)]))
        ∧ resolve t' d = inr (Dir (<[s := File c]> ch)).
Proof.
  intros Hs Hd Hno. rewrite write_run, artifact_path by done.
  destruct (write_in_dir t d s ch c Hd) as (t' & -> & Ht'); [|eauto].
  intros ch' Hch'. unfold no_dir_at in Hno. by rewrite Hch' in Hno.
Qed.

Lemma write_file_inv (p : Path) (c : list Byte.byte) (t : node) (tr : list event)
    (u : unit) (σ' : world) :
  write_file p c (World t tr) = (Ret u, σ') →
  ∃ t', write t p c = inr t' ∧ σ' = World t' (tr ++ [EvWrite p]).
Proof. rewrite write_run. destruct (write t p c); [done|]. intros [= _ <-]. eauto. Qed.

Lemma resolve_in_dir (t : node) (d : Path) (s : string) (ch : gmap string node) :
  valid_name s = true → resolve t d = inr (Dir ch) →
  resolve t (d /: s) = match ch !! s with Some x => inr x | None => inl ENOENT end.
Proof.
  intros Hs Hd. rewrite artifact_path, resolve_app, Hd by done. simpl.
  by destruct (ch !! s).
Qed.

(** A readable file that decodes, in a writable directory, is converted. *)
Lemma convert_ok img_path out_dir rel shape mm n_bytes (t : node) (tr : list event)
    (c : list Byte.byte) vol spacing sim :
  resolve t img_path = inr (File c) →
  read_img_bytes (HAS_SITK rt) (str img_path) c shape mm = Ret (vol, spacing, sim) →
  writable t out_dir = true →
  ∃ t' sw,
    convert rt img_path out_dir rel shape mm n_bytes (World t tr)
    = (Ret (OK, str img_path),
       World t' (tr ++ EvRead img_path :: convert_writes out_dir sw))
    ∧ resolve t' (vol_npy out_dir) = inr (File (npy_uint8 rt vol))
    ∧ resolve t' (spacing_npy out_dir) = inr (File (npy_float32 rt spacing))
    ∧ resolve t' (meta_json out_dir)
      = inr (File (encode_text rt (json_dumps rt
               (meta_of img_path out_dir rel shape spacing n_bytes sw)))).
Proof.
  intros Himg Hdec Hw. unfold writable in Hw.
  destruct (resolve t out_dir) as [|[|ch]] eqn:Hd; [done..|].
  cbn [forallb written_names] in Hw.
  apply andb_true_iff in Hw as [Hmeta Hw]. apply andb_true_iff in Hw as [Hvol Hw].
  apply andb_true_iff in Hw as [Hsp Hw]. apply andb_true_iff in Hw as [Hnii _].
  unfold convert.
  erewrite bind_ret; [|unfold read_img; erewrite bind_ret;
                       [|by rewrite fromfile_run, Himg]; unfold lift; by rewrite Hdec].
  cbn [fst snd].
  destruct (write_file_in_dir out_dir "vol.npy" (npy_uint8 rt vol) t
              (tr ++ [EvRead img_path]) ch eq_refl Hd Hvol) as (t1 & Hw1 & Hd1).
  erewrite bind_ret by exact Hw1.
  destruct (write_file_in_dir out_dir "spacing_zyx.npy" (npy_float32 rt spacing) t1
              ((tr ++ [EvRead img_path]) ++ [EvWrite (out_dir /: "vol.npy")]) _ eq_refl Hd1
              ltac:(by apply no_dir_at_insert)) as (t2 & Hw2 & Hd2).
  erewrite bind_ret by exact Hw2.
  assert (∃ t3 sw ch3 tr3,
    write_nii rt out_dir sim (World t2 (((tr ++ [EvRead img_path])
       ++ [EvWrite (out_dir /: "vol.npy")]) ++ [EvWrite (out_dir /: "spacing_zyx.npy")]))
    = (Ret sw, World t3 tr3)
    ∧ tr3 ++ [EvWrite (out_dir /: "meta.json")]
      = tr ++ EvRead img_path :: convert_writes out_dir sw
    ∧ resolve t3 out_dir = inr (Dir ch3)
    ∧ no_dir_at ch3 "meta.json" = true
    ∧ ch3 !! "vol.npy" = Some (File (npy_uint8 rt vol))
    ∧ ch3 !! "spacing_zyx.npy" = Some (File (npy_float32 rt spacing)))
    as (t3 & sw & ch3 & tr3 & Hw3 & Htr3 & Hd3 & Hno3 & Hv3 & Hs3).
  { unfold write_nii, convert_writes.
    destruct sim as [im|]; [destruct (HAS_SITK rt)|].
    - destruct (write_file_in_dir out_dir "vol.nii.gz" (nii_gz rt im) t2
        (((tr ++ [EvRead img_path]) ++ [EvWrite (out_dir /: "vol.npy")])
           ++ [EvWrite (out_dir /: "spacing_zyx.npy")]) _ eq_refl Hd2
        ltac:(by do 2 apply no_dir_at_insert)) as (t3 & Hw3 & Hd3).
      eexists t3, true, _, _. split; [by erewrite bind_ret by exact Hw3|].
      split; [by rewrite <-!app_assoc|]. split; [exact Hd3|].
      split; [by do 3 apply no_dir_at_insert|]. by simplify_map_eq.
    - eexists t2, false, _, _. split; [done|]. split; [by rewrite <-!app_assoc|].
      split; [exact Hd2|]. split; [by do 2 apply no_dir_at_insert|]. by simplify_map_eq.
    - eexists t2, false, _, _. split; [done|]. split; [by rewrite <-!app_assoc|].
      split; [exact Hd2|]. split; [by do 2 apply no_dir_at_insert|]. by simplify_map_eq. }
  erewrite bind_ret by exact Hw3.
  destruct (write_file_in_dir out_dir "meta.json"
              (encode_text rt (json_dumps rt
                 (meta_of img_path out_dir rel shape spacing n_bytes sw)))
              t3 tr3 ch3 eq_refl Hd3 Hno3) as (t4 & Hw4 & Hd4).
  erewrite bind_ret by exact Hw4.
  exists t4, sw. unfold ret. rewrite Htr3. split; [done|].
  unfold vol_npy, spacing_npy, meta_json.
  rewrite (resolve_in_dir t4 out_dir "vol.npy" _ eq_refl Hd4),
    (resolve_in_dir t4 out_dir "spacing_zyx.npy" _ eq_refl Hd4),
    (resolve_in_dir t4 out_dir "meta.json" _ eq_refl Hd4).
  by simplify_map_eq.
Qed.

(** When the decoder refuses the bytes, nothing is written. *)
Lemma convert_decode_error img_path out_dir rel shape mm n_bytes (t : node)
    (tr : list event) (c : list Byte.byte) (e : exn) :
  resolve t img_path = inr (File c) →
  read_img_bytes (HAS_SITK rt) (str img_path) c shape mm = Raise e →
  convert rt img_path out_dir rel shape mm n_bytes (World t tr)
  = (Raise e, World t (tr ++ [EvRead img_path])).
Proof.
  intros Himg Hdec. unfold convert.
  erewrite bind_raise; [done|]. unfold read_img.
  erewrite bind_ret by (by rewrite fromfile_run, Himg). unfold lift. by rewrite Hdec.
Qed.

Lemma record_error_ok img_path out_dir (e : exn) (t : node) (tr : list event) :
  writable t out_dir = true →
  ∃ t', record_error rt img_path out_dir e (World t tr)
        = (Ret (ERR, str img_path +:+ " :: " +:+ str_exn rt e),
           World t' (tr ++ [EvWrite (out_dir /: "error.txt")]))
        ∧ resolve t' (out_dir /: "error.txt")
          = inr (File (encode_text rt (str_exn rt e +:+ nl))).
Proof.
  intros Hw. unfold writable in Hw.
  destruct (resolve t out_dir) as [|[|ch]] eqn:Hd; [done..|].
  cbn [forallb written_names] in Hw. rewrite !andb_true_iff in Hw.
  destruct Hw as (_ & _ & _ & _ & Herr & _).
  destruct (write_file_in_dir out_dir "error.txt" (encode_text rt (str_exn rt e +:+ nl))
              t tr ch eq_refl Hd Herr) as (t' & Hw' & Hd').
  exists t'. unfold record_error. erewrite bind_ret by exact Hw'. split; [done|].
  rewrite (resolve_in_dir t' out_dir "error.txt" _ eq_refl Hd'). by simplify_map_eq.
Qed.

(** *** The decision *)

Lemma process_one_head img_path out_root mm force_shape (dry_run overwrite : bool)
    (t t1 n : node) (tr : list event) :
  let out_dir := out_dir_of out_root img_path in
  let σ1 := World t1 (tr ++ EvStat img_path :: EvMkdir out_dir :: done_events t1 out_dir) in
  resolve t img_path = inr n → mkdir_p t out_dir = inr t1 →
  process_one rt img_path out_root mm force_shape dry_run overwrite (World t tr)
  = if already_done t1 out_dir && negb overwrite then (Ret (SKIP, str img_path), σ1)
    else if dry_run then (Ret (DRYRUN, str img_path), σ1)
    else try_except
           (convert rt img_path out_dir (relative_under_images img_path)
              (resolve_shape (st_size rt n) force_shape) mm (st_size rt n))
           (record_error rt img_path out_dir) σ1.
Proof.
  intros out_dir σ1 Hn Hmk. rewrite process_one_phases.
  erewrite bind_ret by (by rewrite stat_run, Hn). cbv zeta. fold out_dir.
  erewrite bind_ret by (by rewrite mkdir_run, Hmk).
  erewrite bind_ret by apply check_run.
  replace (World t1 (((tr ++ [EvStat img_path]) ++ [EvMkdir out_dir])
                       ++ done_events t1 out_dir)) with σ1
    by (unfold σ1; by rewrite <-!app_assoc).
  by destruct (already_done t1 out_dir && negb overwrite), dry_run.
Qed.

(** An outcome is reported only after [stat] and [mkdir] went through. *)
Lemma process_one_started img_path out_root mm force_shape (dry_run overwrite : bool)
    (t : node) (tr : list event) o σ' :
  process_one rt img_path out_root mm force_shape dry_run overwrite (World t tr) = (Ret o, σ') →
  ∃ n t1, resolve t img_path = inr n ∧ mkdir_p t (out_dir_of out_root img_path) = inr t1.
Proof.
  rewrite process_one_phases.
  intros [(nb & [t0 tr0] & Hstat & Hrest)|(e & _ & [=])]%bind_inv.
  rewrite stat_run in Hstat. destruct (resolve t img_path) as [|n] eqn:Hn; [done|].
  injection Hstat as <- <- <-.
  apply bind_inv in Hrest as [(u & σ2 & Hmk & _)|(e & _ & [=])].
  rewrite mkdir_run in Hmk. destruct (mkdir_p t _) as [|t1] eqn:Hmkp; [done|]. eauto.
Qed.

Lemma record_error_inv img_path out_dir e σ o σ' :
  record_error rt img_path out_dir e σ = (Ret o, σ') → o.1 = ERR.
Proof.
  unfold record_error.
  intros [(u & σ1 & _ & [= <- _])|(e' & _ & [=])]%bind_inv. done.
Qed.

Lemma resolve_sibling_after_write (t t' : node) (d : Path) (a b : string)
    (c : list Byte.byte) :
  valid_name a = true → valid_name b = true → a ≠ b →
  write t (d /: a) c = inr t' → resolve t' (d /: b) = resolve t (d /: b).
Proof.
  intros Ha Hb Hab. rewrite !artifact_path by done. intros Hw.
  by eapply write_sibling.
Qed.

(** What a conversion that returns has done. *)
Lemma convert_inv img_path out_dir rel shape mm n_bytes (t : node) (tr : list event) o σ' :
  convert rt img_path out_dir rel shape mm n_bytes (World t tr) = (Ret o, σ') →
  o = (OK, str img_path)
  ∧ ∃ c vol spacing sim,
      resolve t img_path = inr (File c)
      ∧ read_img_bytes (HAS_SITK rt) (str img_path) c shape mm = Ret (vol, spacing, sim)
      ∧ resolve (tree σ') (vol_npy out_dir) = inr (File (npy_uint8 rt vol))
      ∧ resolve (tree σ') (spacing_npy out_dir) = inr (File (npy_float32 rt spacing))
      ∧ present (tree σ') (meta_json out_dir) = true.
Proof.
  unfold convert.
  intros [(r & σ1 & Hread & Hrest)|(e & _ & [=])]%bind_inv.
  unfold read_img in Hread.
  apply bind_inv in Hread as [(c & σ0 & Hff & Hdec)|(e & _ & [=])].
  rewrite fromfile_run in Hff. destruct (resolve t img_path) as [|[c0|]] eqn:Himg; [done| |done].
  injection Hff as <- <-. unfold lift in Hdec. injection Hdec as Hdec <-.
  destruct r as [[vol spacing] sim]. cbn [fst snd] in Hrest.
  apply bind_inv in Hrest as [(u1 & σ2 & Hw1 & Hrest)|(e & _ & [=])].
  apply write_file_inv in Hw1 as (t2 & Hw1 & ->).
  apply bind_inv in Hrest as [(u2 & σ3 & Hw2 & Hrest)|(e & _ & [=])].
  apply write_file_inv in Hw2 as (t3 & Hw2 & ->).
  apply bind_inv in Hrest as [(sw & [t4 tr4] & Hw3 & Hrest)|(e & _ & [=])].
  apply bind_inv in Hrest as [(u4 & σ5 & Hw4 & Hrest)|(e & _ & [=])].
  apply write_file_inv in Hw4 as (t5 & Hw4 & ->).
  injection Hrest as <- <-. split; [done|]. exists c0, vol, spacing, sim.
  split; [done|]. split; [done|]. cbn [tree].
  assert (resolve t4 (vol_npy out_dir) = resolve t3 (vol_npy out_dir)
          ∧ resolve t4 (spacing_npy out_dir) = resolve t3 (spacing_npy out_dir)) as [Hv4 Hs4].
  { unfold write_nii in Hw3. destruct sim as [im|]; [destruct (HAS_SITK rt)|].
    - apply bind_inv in Hw3 as [(u3 & σ4 & Hw3 & [= _ ->])|(e & _ & [=])].
      apply write_file_inv in Hw3 as (t4' & Hw3 & [= -> _]).
      split; eapply resolve_sibling_after_write; try exact Hw3; done.
    - by injection Hw3 as _ -> _.
    - by injection Hw3 as _ -> _. }
  unfold vol_npy, spacing_npy, meta_json in *.
  split; [|split].
  - rewrite (resolve_sibling_after_write t4 t5 out_dir "meta.json" "vol.npy" _
               eq_refl eq_refl ltac:(done) Hw4), Hv4.
    rewrite (resolve_sibling_after_write t2 t3 out_dir "spacing_zyx.npy" "vol.npy" _
               eq_refl eq_refl ltac:(done) Hw2).
    by eapply write_resolve.
  - rewrite (resolve_sibling_after_write t4 t5 out_dir "meta.json" "spacing_zyx.npy" _
               eq_refl eq_refl ltac:(done) Hw4), Hs4.
    by eapply write_resolve.
  - unfold present. by erewrite write_resolve by exact Hw4.
Qed.

Lemma present_extends (t t' : node) (p : Path) :
  extends t t' → present t p = true → present t' p = true.
Proof.
  intros Hext [x Hx]%present_true. apply present_true. by eapply Hext.
Qed.

Lemma already_done_extends (t t' : node) (out_dir : Path) :
  extends t t' → already_done t out_dir = true → already_done t' out_dir = true.
Proof.
  unfold already_done. rewrite !andb_true_iff. intros Hext [[? ?] ?].
  repeat split; eauto using present_extends.
Qed.

(** After OK or SKIP the source is there and its three artifacts too. *)
Lemma process_one_settled img_path out_root mm force_shape (dry_run overwrite : bool)
    (σ σ' : world) st msg :
  process_one rt img_path out_root mm force_shape dry_run overwrite σ = (Ret (st, msg), σ') →
  st = OK ∨ st = SKIP →
  msg = str img_path
  ∧ present (tree σ') img_path = true
  ∧ already_done (tree σ') (out_dir_of out_root img_path) = true.
Proof.
  intros Hrun Hst. destruct σ as [t tr].
  destruct (process_one_started _ _ _ _ _ _ _ _ _ _ Hrun) as (n & t1 & Hn & Hmk).
  assert (present (tree σ') img_path = true) as Hsrc.
  { eapply present_extends; [by eapply grows_process_one|].
    apply present_true. eauto. }
  rewrite (process_one_head _ _ _ _ _ _ t t1 n tr Hn Hmk) in Hrun.
  destruct (already_done t1 _ && negb overwrite) eqn:Hdone.
  { simplify_eq. apply andb_true_iff in Hdone as [Hdone _]. done. }
  destruct dry_run; [simplify_eq; by destruct Hst|].
  apply try_inv in Hrun as [(o & Hconv & [= <-])|(e & σ1 & _ & Herr)].
  - apply convert_inv in Hconv as ([= -> ->] & c & vol & sp & sim & _ & _ & Hv & Hs & Hm).
    split; [done|]. split; [done|]. unfold already_done.
    by rewrite Hm, !(proj2 (present_true _ _)) by eauto.
  - apply record_error_inv in Herr. simpl in Herr. subst st. by destruct Hst.
Qed.

(** *** Skipping, and running the batch again *)

Lemma process_one_skip img_path out_root mm force_shape (dry_run : bool)
    (t : node) (tr : list event) :
  let out_dir := out_dir_of out_root img_path in
  settled t out_root img_path = true →
  process_one rt img_path out_root mm force_shape dry_run false (World t tr)
  = (Ret (SKIP, str img_path),
     World t (tr ++ EvStat img_path :: EvMkdir out_dir :: done_events t out_dir)).
Proof.
  intros out_dir [[n Hn]%present_true Hdone]%andb_true_iff.
  assert (∃ ch, resolve t out_dir = inr (Dir ch)) as [ch Hch].
  { apply (artifact_dir t out_dir "meta.json" eq_refl).
    unfold already_done, meta_json in Hdone. rewrite !andb_true_iff in Hdone.
    by destruct Hdone as [[? _] _]. }
  rewrite (process_one_head _ _ _ _ _ _ t t n tr Hn (mkdir_p_exists _ _ _ Hch)).
  subst out_dir. by rewrite Hdone.
Qed.

Lemma skip_events_quiet img_path out_dir (t : node) :
  forallb quiet (EvStat img_path :: EvMkdir out_dir :: done_events t out_dir) = true.
Proof. simpl. apply done_events_quiet. Qed.

Lemma batch_all_skip (files : list Path) out_root force_shape (dry_run : bool)
    (max grand_total : Z) (t : node) (tr : list event) :
  Forall (λ f, settled t out_root f = true) (processed max grand_total files) →
  ∃ evs,
    batch_loop rt files out_root force_shape dry_run false max grand_total (World t tr)
    = (Ret ((λ f, (SKIP, str f)) <$> processed max grand_total files), World t (tr ++ evs))
    ∧ forallb quiet evs = true.
Proof.
  revert grand_total tr. induction files as [|f files IH]; intros gt tr Hall.
  - exists []. by rewrite app_nil_r.
  - cbn [batch_loop processed] in *.
    destruct (negb (max =? 0) && (max <=? gt + 1)) eqn:Hcap.
    + apply Forall_cons in Hall as [Hf _].
      erewrite bind_ret by (by apply process_one_skip). eexists. split; [done|].
      apply skip_events_quiet.
    + apply Forall_cons in Hall as [Hf Hrest].
      erewrite bind_ret by (by apply process_one_skip).
      destruct (IH (gt + 1) (tr ++ EvStat f :: EvMkdir (out_dir_of out_root f)
                                 :: done_events t (out_dir_of out_root f)) Hrest)
        as (evs & Hloop & Hq).
      erewrite bind_ret by exact Hloop.
      eexists. rewrite <-app_assoc. split; [done|].
      rewrite forallb_app, Hq. by rewrite skip_events_quiet.
Qed.

Lemma grows_batch_loop (files : list Path) out_root force_shape (dry_run overwrite : bool)
    (max grand_total : Z) :
  grows (batch_loop rt files out_root force_shape dry_run overwrite max grand_total).
Proof.
  revert grand_total. induction files as [|f files IH]; intros gt; cbn [batch_loop].
  - apply grows_ret.
  - apply grows_bind; [apply grows_process_one|intros r].
    destruct (negb (max =? 0) && (max <=? gt + 1)); [apply grows_ret|].
    apply grows_bind; [apply IH|intros; apply grows_ret].
Qed.

Lemma settled_extends (t t' : node) out_root f :
  extends t t' → settled t out_root f = true → settled t' out_root f = true.
Proof.
  unfold settled. rewrite !andb_true_iff. intros Hext [? ?].
  eauto using present_extends, already_done_extends.
Qed.

(** A run whose outcomes are all OK or SKIP leaves every file it got to
    settled, and reports each under its own path. *)
Lemma batch_settles (files : list Path) out_root force_shape (dry_run overwrite : bool)
    (max grand_total : Z) (σ0 σ1 : world) (outs : list (status * string)) :
  batch_loop rt files out_root force_shape dry_run overwrite max grand_total σ0
  = (Ret outs, σ1) →
  Forall (λ o, o.1 = OK ∨ o.1 = SKIP) outs →
  Forall (λ f, settled (tree σ1) out_root f = true) (processed max grand_total files)
  ∧ outs.*2 = str <$> processed max grand_total files.
Proof.
  revert grand_total σ0 outs. induction files as [|f files IH]; intros gt σ0 outs.
  - cbn [batch_loop processed]. by intros [= <- <-].
  - cbn [batch_loop processed].
    intros [([st msg] & σa & Hone & Hrest)|(e & _ & [=])]%bind_inv Houts.
    destruct (negb (max =? 0) && (max <=? gt + 1)).
    + injection Hrest as <- <-. apply Forall_cons in Houts as [Hst _].
      destruct (process_one_settled _ _ _ _ _ _ _ _ _ _ Hone Hst) as (-> & Hsrc & Hdone).
      split; [|done]. constructor; [|done]. unfold settled. by rewrite Hsrc, Hdone.
    + apply bind_inv in Hrest as [(rs & σb & Hloop & [= <- <-])|(e & _ & [=])].
      apply Forall_cons in Houts as [Hst Hrs].
      destruct (process_one_settled _ _ _ _ _ _ _ _ _ _ Hone Hst) as (-> & Hsrc & Hdone).
      destruct (IH _ _ _ Hloop Hrs) as [Hall Hmsgs].
      split; [|cbn [fmap list_fmap snd]; by f_equal]. constructor; [|done].
      eapply settled_extends; [by eapply grows_batch_loop|].
      unfold settled. by rewrite Hsrc, Hdone.
Qed.

Lemma processed_Forall (P : Path → Prop) (max grand_total : Z) (files : list Path) :
  Forall P files → Forall P (processed max grand_total files).
Proof.
  intros Hall. revert grand_total. induction Hall as [|f files Hf _ IH]; intros gt.
  - constructor.
  - cbn [processed]. destruct (negb _ && _); constructor; auto.
Qed.

(** A dry run of a file that is not skipped: the output directory is
    made, nothing is read, no file is written. *)
Lemma process_one_dry_run img_path out_root mm force_shape (overwrite : bool)
    (t t1 n : node) (tr : list event) :
  let out_dir := out_dir_of out_root img_path in
  resolve t img_path = inr n → mkdir_p t out_dir = inr t1 →
  already_done t1 out_dir && negb overwrite = false →
  ∃ evs,
    process_one rt img_path out_root mm force_shape true overwrite (World t tr)
    = (Ret (DRYRUN, str img_path), World t1 (tr ++ evs))
    ∧ forallb quiet evs = true ∧ EvMkdir out_dir ∈ evs.
Proof.
  intros out_dir Hn Hmk Hdone.
  rewrite (process_one_head _ _ _ _ _ _ t t1 n tr Hn Hmk). fold out_dir. rewrite Hdone.
  eexists. split; [done|]. split; [apply skip_events_quiet|]. set_solver.
Qed.

(** A real conversion of a regular file into a writable directory: OK
    with the artifacts written when the bytes decode, ERR with the error
    record when they do not. *)
Lemma process_one_real img_path out_root mm force_shape (overwrite : bool)
    (t t1 : node) (tr : list event) (c : list Byte.byte) :
  let out_dir := out_dir_of out_root img_path in
  let shape := resolve_shape (Z.of_nat (length c)) force_shape in
  resolve t img_path = inr (File c) → mkdir_p t out_dir = inr t1 →
  writable t1 out_dir = true →
  already_done t1 out_dir && negb overwrite = false →
  ∃ st msg t' evs,
    process_one rt img_path out_root mm force_shape false overwrite (World t tr)
    = (Ret (st, msg), World t' (tr ++ evs))
    ∧ EvRead img_path ∈ evs
    ∧ match read_img_bytes (HAS_SITK rt) (str img_path) c shape mm with
      | Ret (vol, spacing, sim) =>
          st = OK ∧ msg = str img_path
          ∧ EvWrite (vol_npy out_dir) ∈ evs ∧ EvWrite (spacing_npy out_dir) ∈ evs
          ∧ EvWrite (meta_json out_dir) ∈ evs
          ∧ resolve t' (vol_npy out_dir) = inr (File (npy_uint8 rt vol))
          ∧ resolve t' (spacing_npy out_dir) = inr (File (npy_float32 rt spacing))
          ∧ ∃ sw, resolve t' (meta_json out_dir)
              = inr (File (encode_text rt (json_dumps rt
                  (meta_of img_path out_dir (relative_under_images img_path) shape
                     spacing (Z.of_nat (length c)) sw))))
      | Raise e =>
          st = ERR ∧ msg = str img_path +:+ " :: " +:+ str_exn rt e
          ∧ evs = EvStat img_path :: EvMkdir out_dir :: done_events t1 out_dir
                  ++ [EvRead img_path; EvWrite (out_dir /: "error.txt")]
          ∧ resolve t' (out_dir /: "error.txt")
            = inr (File (encode_text rt (str_exn rt e +:+ nl)))
      end.
Proof.
  intros out_dir shape Himg Hmk Hw Hdone.
  rewrite (process_one_head _ _ _ _ _ _ t t1 (File c) tr Himg Hmk).
  fold out_dir. rewrite Hdone. cbn [st_size]. fold shape.
  pose proof (mkdir_p_keeps_files _ _ _ Hmk _ _ Himg) as Himg1. cbn iota in Himg1.
  unfold try_except.
  destruct (read_img_bytes (HAS_SITK rt) (str img_path) c shape mm)
    as [[[vol spacing] sim]|e] eqn:Hdec.
  - destruct (convert_ok img_path out_dir (relative_under_images img_path) shape mm
                (Z.of_nat (length c)) t1
                (tr ++ EvStat img_path :: EvMkdir out_dir :: done_events t1 out_dir)
                c vol spacing sim Himg1 Hdec Hw) as (t' & sw & -> & Hv & Hs & Hm).
    eexists OK, _, t', _. rewrite <-app_assoc. split; [done|].
    unfold convert_writes, vol_npy, spacing_npy, meta_json in *.
    split; [set_solver|]. repeat (split; [done || set_solver|]). eauto.
  - rewrite (convert_decode_error _ _ _ _ _ _ _ _ _ _ Himg1 Hdec).
    destruct (record_error_ok img_path out_dir e t1
                ((tr ++ EvStat img_path :: EvMkdir out_dir :: done_events t1 out_dir)
                   ++ [EvRead img_path]) Hw) as (t' & -> & He).
    eexists ERR, _, t', _. rewrite <-!app_assoc. split; [done|].
    split; [set_solver|]. done.
Qed.

(** What a run that returned OK has done. *)
Lemma process_one_ok_inv img_path out_root mm force_shape (dry_run overwrite : bool)
    (σ σ' : world) (msg : string) :
  process_one rt img_path out_root mm force_shape dry_run overwrite σ
  = (Ret (OK, msg), σ') →
  ∃ c vol spacing sim,
    resolve (tree σ) img_path = inr (File c)
    ∧ read_img_bytes (HAS_SITK rt) (str img_path) c
        (resolve_shape (Z.of_nat (length c)) force_shape) mm
      = Ret (vol, spacing, sim)
    ∧ resolve (tree σ') (vol_npy (out_dir_of out_root img_path))
      = inr (File (npy_uint8 rt vol))
    ∧ resolve (tree σ') (spacing_npy (out_dir_of out_root img_path))
      = inr (File (npy_float32 rt spacing)).
Proof.
  intros Hrun. destruct σ as [t tr].
  destruct (process_one_started _ _ _ _ _ _ _ _ _ _ Hrun) as (n & t1 & Hn & Hmk).
  rewrite (process_one_head _ _ _ _ _ _ t t1 n tr Hn Hmk) in Hrun.
  destruct (already_done t1 _ && negb overwrite); [done|].
  destruct dry_run; [done|].
  apply try_inv in Hrun as [(o & Hconv & [= <-])|(e & σ1 & _ & Herr)].
  - apply convert_inv in Hconv as (_ & c & vol & sp & sim & Himg1 & Hdec & Hv & Hs & _).
    pose proof (mkdir_p_keeps_files _ _ _ Hmk _ _ Hn) as Hkeep.
    destruct n as [c0|ch0].
    + rewrite Hkeep in Himg1. injection Himg1 as <-. cbn [st_size tree] in *.
      by exists c0, vol, sp, sim.
    + destruct Hkeep as [ch' Hkeep]. by rewrite Hkeep in Himg1.
  - by apply record_error_inv in Herr.
Qed.

End ProcessFacts.

(** ** The claims on the state machine *)

Section StateMachine.
Import PathLib Mapper Decoder FS Zeiss.

(** C3, as the code has it. A source file that is there with its three
    artifacts is skipped when overwrite is off: SKIP, the tree as it
    was, no file read and none written.  So a batch all of whose files
    are settled yields only SKIP and leaves the tree as it was; and
    after a first run in which every outcome was OK or SKIP, a second
    run on the same files with overwrite off yields SKIP for each of
    them and leaves the tree as the first run left it. *)
Theorem skip_is_idempotent (rt : runtime) :
  (∀ img_path out_root mm force_shape (dry_run : bool) t tr,
     settled t out_root img_path = true →
     ∃ evs,
       process_one rt img_path out_root mm force_shape dry_run false (World t tr)
       = (Ret (SKIP, str img_path), World t (tr ++ evs))
       ∧ forallb quiet evs = true)
  ∧ (∀ files out_root force_shape (dry_run : bool) max grand_total t tr,
     Forall (λ f, settled t out_root f = true) files →
     ∃ outs evs,
       batch_loop rt files out_root force_shape dry_run false max grand_total (World t tr)
       = (Ret outs, World t (tr ++ evs))
       ∧ Forall (λ o, o.1 = SKIP) outs ∧ forallb quiet evs = true
       ∧ (max = 0 → length outs = length files))
  ∧ (∀ files out_root force_shape (dry1 overwrite1 dry2 : bool) max grand_total σ0 outs1 σ1,
     batch_loop rt files out_root force_shape dry1 overwrite1 max grand_total σ0
     = (Ret outs1, σ1) →
     Forall (λ o, o.1 = OK ∨ o.1 = SKIP) outs1 →
     ∃ evs,
       batch_loop rt files out_root force_shape dry2 false max grand_total σ1
       = (Ret ((λ o, (SKIP, o.2)) <$> outs1), World (tree σ1) (trace σ1 ++ evs))
       ∧ forallb quiet evs = true).
Proof.
  split; [|split].
  - intros img_path out_root mm force_shape dry_run t tr Hs.
    eexists. split; [by apply process_one_skip|]. apply skip_events_quiet.
  - intros files out_root force_shape dry_run max gt t tr Hall.
    destruct (batch_all_skip rt files out_root force_shape dry_run max gt t tr
                (processed_Forall _ _ _ _ Hall)) as (evs & Hrun & Hq).
    eexists _, evs. split; [exact Hrun|]. split; [|split; [done|]].
    + apply Forall_fmap, Forall_forall. done.
    + intros ->. rewrite length_fmap. clear. revert gt.
      induction files as [|f files IH]; intros gt; [done|].
      cbn [processed]. simpl. by rewrite IH.
  - intros files out_root force_shape dry1 ow1 dry2 max gt σ0 outs1 [t1 tr1] Hrun Houts.
    destruct (batch_settles rt _ _ _ _ _ _ _ _ _ _ Hrun Houts) as [Hall Hmsgs].
    destruct (batch_all_skip rt files out_root force_shape dry2 max gt t1 tr1 Hall)
      as (evs & Hrun2 & Hq).
    exists evs. split; [|done]. rewrite Hrun2. do 2 f_equal.
    transitivity ((λ m : string, (SKIP, m)) <$> (str <$> processed max gt files));
      [by rewrite <-list_fmap_compose|].
    rewrite <-Hmsgs. by rewrite <-list_fmap_compose.
Qed.

Lemma skip_is_idempotent_witness :
  ∃ evs,
    process_one example_runtime example_img example_out (6, 2, 6) None false false
      (World example_done [])
    = (Ret (SKIP, str example_img), World example_done ([] ++ evs))
    ∧ forallb quiet evs = true.
Proof.
  apply (proj1 (skip_is_idempotent example_runtime)). vm_compute. reflexivity.
Defined.

(** C3 as the claim words it fails: the first run of a batch of one file
    of the wrong size ends in ERR and writes the error record only, so
    the second run on the same input converts the file again and reports
    ERR again, not SKIP. *)
Lemma second_run_retries_failure :
  let first := batch_loop example_runtime [example_img] example_out None false false 0 0
                 (World example_fresh []) in
  let second := batch_loop example_runtime [example_img] example_out None false false 0 0
                  first.2 in
  statuses first.1 = Some [ERR] ∧ statuses second.1 = Some [ERR].
Proof. vm_compute. done. Qed.

(** C7, as the code has it. For a source file whose three artifacts
    exist (and no directory sits at a name the conversion writes), with
    overwrite on: SKIP is never returned; DRYRUN is returned exactly
    when dry_run is on, and then nothing is read or written; with
    dry_run off the bytes are read and the decode attempted: when it
    succeeds the outcome is OK and the three artifacts are rewritten,
    when it fails the outcome is ERR and the error record is written. *)
Theorem overwrite_reconverts (rt : runtime) img_path out_root mm force_shape
    (dry_run : bool) (t : node) (tr : list event) (c : list Byte.byte) :
  let out_dir := out_dir_of out_root img_path in
  let shape := resolve_shape (Z.of_nat (length c)) force_shape in
  resolve t img_path = inr (File c) →
  already_done t out_dir = true → writable t out_dir = true →
  ∃ st msg t' evs,
    process_one rt img_path out_root mm force_shape dry_run true (World t tr)
    = (Ret (st, msg), World t' (tr ++ evs))
    ∧ st ≠ SKIP ∧ (st = DRYRUN ↔ dry_run = true)
    ∧ (dry_run = true → t' = t ∧ forallb quiet evs = true)
    ∧ (dry_run = false →
         EvRead img_path ∈ evs
         ∧ match read_img_bytes (HAS_SITK rt) (str img_path) c shape mm with
           | Ret (vol, spacing, sim) =>
               st = OK
               ∧ EvWrite (vol_npy out_dir) ∈ evs ∧ EvWrite (spacing_npy out_dir) ∈ evs
               ∧ EvWrite (meta_json out_dir) ∈ evs
               ∧ resolve t' (vol_npy out_dir) = inr (File (npy_uint8 rt vol))
               ∧ resolve t' (spacing_npy out_dir) = inr (File (npy_float32 rt spacing))
               ∧ ∃ sw, resolve t' (meta_json out_dir)
                   = inr (File (encode_text rt (json_dumps rt
                       (meta_of img_path out_dir (relative_under_images img_path) shape
                          spacing (Z.of_nat (length c)) sw))))
           | Raise e =>
               st = ERR
               ∧ resolve t' (out_dir /: "error.txt")
                 = inr (File (encode_text rt (str_exn rt e +:+ nl)))
           end).
Proof.
  intros out_dir shape Himg Hdone Hw.
  assert (mkdir_p t out_dir = inr t) as Hmk.
  { unfold writable in Hw. destruct (resolve t out_dir) as [|[|ch]] eqn:Hd; [done..|].
    by eapply mkdir_p_exists. }
  assert (already_done t out_dir && negb true = false) as Hnot by apply andb_false_r.
  destruct dry_run.
  - destruct (process_one_dry_run rt img_path out_root mm force_shape true t t (File c) tr
                Himg Hmk Hnot) as (evs & Hrun & Hq & _).
    exists DRYRUN, (str img_path), t, evs. by repeat split.
  - destruct (process_one_real rt img_path out_root mm force_shape true t t tr c
                Himg Hmk Hw Hnot) as (st & msg & t' & evs & Hrun & Hread & Hres).
    exists st, msg, t', evs. split; [exact Hrun|]. fold out_dir shape in Hres.
    destruct (read_img_bytes (HAS_SITK rt) (str img_path) c shape mm)
      as [[[vol spacing] sim]|e].
    + destruct Hres as (-> & _ & Hres).
      split; [done|]. split; [done|]. split; [done|]. intros _. by split.
    + destruct Hres as (-> & _ & _ & Hres).
      split; [done|]. split; [done|]. split; [done|]. intros _. by split.
Qed.

Lemma overwrite_reconverts_witness :
  ∃ st msg t' evs,
    process_one example_runtime example_img example_out (6, 2, 6) (Some (1, 1, 2))
      false true (World example_done [])
    = (Ret (st, msg), World t' ([] ++ evs))
    ∧ st = OK ∧ EvRead example_img ∈ evs.
Proof.
  destruct (overwrite_reconverts example_runtime example_img example_out (6, 2, 6)
              (Some (1, 1, 2)) false example_done [] [Byte.x0a; Byte.x0b]
              ltac:(vm_compute; reflexivity) ltac:(vm_compute; reflexivity)
              ltac:(vm_compute; reflexivity))
    as (st & msg & t' & evs & Hrun & _ & _ & _ & Hreal).
  destruct (Hreal eq_refl) as [Hread Hres]. vm_compute in Hres.
  exists st, msg, t', evs. split; [exact Hrun|]. split; [apply Hres|exact Hread].
Defined.

(** C7 as the claim words it fails: with overwrite on and dry_run on, a
    file whose artifacts exist gets DRYRUN, and nothing is rewritten. *)
Lemma overwrite_with_dry_run :
  let r := process_one example_runtime example_img example_out (6, 2, 6) None true true
             (World example_done []) in
  already_done example_done (out_dir_of example_out example_img) = true
  ∧ status_of r.1 = Some DRYRUN ∧ tree r.2 = example_done
  ∧ forallb quiet (trace r.2) = true.
Proof. vm_compute. done. Qed.

(** C8, at the input where the code departs from it: a dry run of a
    file that has no output directory yet reports DRYRUN without
    reading or writing a file, and creates the output directory. *)
Theorem dry_run_creates_output_dir :
  let r := process_one example_runtime example_img example_out (6, 2, 6) None true false
             (World example_fresh []) in
  out_dir_of example_out example_img = example_out_dir
  ∧ status_of r.1 = Some DRYRUN
  ∧ forallb quiet (trace r.2) = true
  ∧ present example_fresh example_out_dir = false
  ∧ resolve (tree r.2) example_out_dir = inr (Dir ∅)
  ∧ EvMkdir example_out_dir ∈ trace r.2.
Proof.
  vm_compute. repeat split. apply list_elem_of_In. vm_compute. tauto.
Qed.

(** C9, as the code has it. Whenever [process_one] returns OK, the
    source was a regular file whose bytes decoded, and the serialized
    spacing vector is in the output directory under the name
    spacing_zyx.npy. *)
Theorem spacing_file_written (rt : runtime) img_path out_root mm force_shape
    (dry_run overwrite : bool) (σ σ' : world) (msg : string) :
  process_one rt img_path out_root mm force_shape dry_run overwrite σ
  = (Ret (OK, msg), σ') →
  ∃ c vol spacing sim,
    resolve (tree σ) img_path = inr (File c)
    ∧ read_img_bytes (HAS_SITK rt) (str img_path) c
        (resolve_shape (Z.of_nat (length c)) force_shape) mm
      = Ret (vol, spacing, sim)
    ∧ resolve (tree σ') (out_dir_of out_root img_path ++ ["spacing_zyx.npy"])
      = inr (File (npy_float32 rt spacing)).
Proof.
  intros Hrun.
  destruct (process_one_ok_inv rt _ _ _ _ _ _ _ _ _ Hrun)
    as (c & vol & spacing & sim & Hc & Hdec & _ & Hs).
  exists c, vol, spacing, sim. split; [done|]. split; [done|].
  unfold spacing_npy in Hs. by rewrite artifact_path in Hs.
Qed.

Lemma spacing_file_written_witness :
  ∃ c vol spacing sim,
    resolve example_fresh example_img = inr (File c)
    ∧ read_img_bytes false (str example_img) c (1, 1, 2) (6, 2, 6) = Ret (vol, spacing, sim)
    ∧ present
        (tree (process_one example_runtime example_img example_out (6, 2, 6)
                 (Some (1, 1, 2)) false false (World example_fresh [])).2)
        (example_out_dir ++ ["spacing_zyx.npy"]) = true.
Proof.
  destruct (spacing_file_written example_runtime example_img example_out (6, 2, 6)
              (Some (1, 1, 2)) false false (World example_fresh [])
              (process_one example_runtime example_img example_out (6, 2, 6)
                 (Some (1, 1, 2)) false false (World example_fresh [])).2
              (str example_img) ltac:(vm_compute; reflexivity))
    as (c & vol & spacing & sim & Hc & Hdec & Hfile).
  exists c, vol, spacing, sim. split; [exact Hc|]. split; [exact Hdec|].
  apply present_true. eexists. exact Hfile.
Defined.

(** C9 as the claim words it fails: after a conversion that returned OK
    the output directory has no file named spacing_zyx_mm.npy; the
    spacing is in spacing_zyx.npy. *)
Lemma spacing_file_name :
  let r := process_one example_runtime example_img example_out (6, 2, 6) (Some (1, 1, 2))
             false false (World example_fresh []) in
  status_of r.1 = Some OK
  ∧ present (tree r.2) (example_out_dir ++ ["spacing_zyx_mm.npy"]) = false
  ∧ present (tree r.2) (example_out_dir ++ ["spacing_zyx.npy"]) = true.
Proof. vm_compute. done. Qed.

(** C10. With no forced shape the resolved shape is (200,1024,200)
    whatever the size of the file; so a real conversion (dry_run off,
    the file not skipped) of a regular file, its output directory
    creatable and writable, returns OK exactly when the file has
    200*1024*200 = 40960000 bytes, and ERR otherwise.  And whatever the
    state of the file system, a run without forced shape that returns
    OK had a source of exactly 40960000 bytes. *)
Theorem unforced_conversion (rt : runtime) img_path out_root mm (overwrite : bool)
    (t t1 : node) (tr : list event) (c : list Byte.byte) :
  let out_dir := out_dir_of out_root img_path in
  resolve t img_path = inr (File c) → mkdir_p t out_dir = inr t1 →
  writable t1 out_dir = true →
  already_done t1 out_dir && negb overwrite = false →
  (∀ n_bytes, resolve_shape n_bytes None = (200, 1024, 200))
  ∧ ∃ st msg σ',
      process_one rt img_path out_root mm None false overwrite (World t tr)
      = (Ret (st, msg), σ')
      ∧ (st = OK ↔ Z.of_nat (length c) = 40960000)
      ∧ (Z.of_nat (length c) ≠ 40960000 → st = ERR)
      ∧ (∀ (dry_run' overwrite' : bool) σ0 σ0' msg',
           process_one rt img_path out_root mm None dry_run' overwrite' σ0
           = (Ret (OK, msg'), σ0') →
           ∃ c', resolve (tree σ0) img_path = inr (File c')
                 ∧ Z.of_nat (length c') = 40960000).
Proof.
  intros out_dir Himg Hmk Hw Hdone. split; [apply resolve_shape_unforced|].
  assert (∀ (dry_run' overwrite' : bool) σ0 σ0' msg',
           process_one rt img_path out_root mm None dry_run' overwrite' σ0
           = (Ret (OK, msg'), σ0') →
           ∃ c', resolve (tree σ0) img_path = inr (File c')
                 ∧ Z.of_nat (length c') = 40960000) as Hinv.
  { intros dry_run' overwrite' σ0 σ0' msg' Hrun.
    destruct (process_one_ok_inv rt _ _ _ _ _ _ _ _ _ Hrun)
      as (c' & vol & spacing & sim & Hc' & Hdec & _).
    exists c'. split; [done|]. rewrite resolve_shape_unforced in Hdec.
    destruct (decide (Z.of_nat (length c') = 40960000)) as [|Hne]; [done|].
    rewrite read_img_bytes_mismatch in Hdec by lia. done. }
  destruct (process_one_real rt img_path out_root mm None overwrite t t1 tr c
              Himg Hmk Hw Hdone) as (st & msg & t' & evs & Hrun & _ & Hres).
  exists st, msg, (World t' (tr ++ evs)). split; [exact Hrun|].
  rewrite resolve_shape_unforced in Hres. destruct mm as [[ed eh] ew].
  destruct (decide (Z.of_nat (length c) = 40960000)) as [Hlen|Hlen].
  - destruct (read_img_bytes_ok (HAS_SITK rt) (str img_path) c 200 1024 200 (ed, eh, ew))
      as [sim Hok]; [lia..|].
    rewrite Hok in Hres. destruct Hres as (-> & _). by repeat split.
  - rewrite read_img_bytes_mismatch in Hres by lia. destruct Hres as (-> & _).
    by repeat split.
Qed.

Lemma unforced_conversion_witness :
  ∃ st msg σ',
    process_one example_runtime example_img example_out (6, 2, 6) None false false
      (World example_fresh [])
    = (Ret (st, msg), σ') ∧ st = ERR.
Proof.
  destruct (unforced_conversion example_runtime example_img example_out (6, 2, 6) false
              example_fresh
              (match mkdir_p example_fresh (out_dir_of example_out example_img) with
               | inr t1 => t1
               | inl _ => example_fresh
               end)
              [] [Byte.x0a; Byte.x0b]
              ltac:(vm_compute; reflexivity) ltac:(vm_compute; reflexivity)
              ltac:(vm_compute; reflexivity) ltac:(vm_compute; reflexivity))
    as (_ & st & msg & σ' & Hrun & _ & Herr & _).
  exists st, msg, σ'. split; [exact Hrun|]. apply Herr. vm_compute. discriminate.
Defined.

End StateMachine.


(** * Further properties *)

(** ** The decoder *)

Section DecoderMore.
Import Decoder More.

(** X1. [infer_shape_from_filesize] knows one size only: it answers
    (200,1024,200) for 40960000 bytes and nothing for any other count. *)
Theorem infer_shape_only_cube (n_bytes : Z) :
  (n_bytes = 40960000 → infer_shape_from_filesize n_bytes = Some (200, 1024, 200))
  ∧ (n_bytes ≠ 40960000 → infer_shape_from_filesize n_bytes = None)
  ∧ (∀ s, infer_shape_from_filesize n_bytes = Some s → volume s = n_bytes).
Proof.
  unfold infer_shape_from_filesize, known. cbn [find].
  destruct (Z.eqb_spec (200 * 1024 * 200) n_bytes) as [<-|Hne].
  - split; [done|]. split; [done|]. by intros s [= <-].
  - split; [intros ->; by destruct Hne|]. done.
Qed.

Lemma infer_shape_only_cube_witness :
  infer_shape_from_filesize 40960000 = Some (200, 1024, 200)
  ∧ infer_shape_from_filesize 7 = None.
Proof.
  split.
  - apply (infer_shape_only_cube 40960000). reflexivity.
  - apply (infer_shape_only_cube 7). discriminate.
Defined.

Lemma length_flip (a : Np.array2) : length (Np.flip_rows_cols a) = length a.
Proof. unfold Np.flip_rows_cols. by rewrite length_reverse, length_fmap. Qed.

Lemma rows_row_length (h w : nat) (a : list Byte.byte) :
  (h * w <= length a)%nat →
  Forall (λ row : list Byte.byte, length row = w) (Np.rows h w a).
Proof.
  intros Hlen. unfold Np.rows. apply Forall_fmap, Forall_forall.
  intros r Hr%elem_of_seq. simpl. rewrite length_take, length_drop. nia.
Qed.

Lemma frame_of_shape (buf : list Byte.byte) (d h w i : Z) :
  Z.of_nat (length buf) = d * h * w → 0 <= h → 0 <= w → 0 <= i < d →
  Z.of_nat (length (frame_of buf h w i)) = h
  ∧ Forall (λ row : list Byte.byte, Z.of_nat (length row) = w) (frame_of buf h w i).
Proof.
  intros Hlen Hh Hw Hi. unfold frame_of. rewrite length_flip, length_rows.
  split; [lia|]. unfold Np.flip_rows_cols.
  assert (0 <= h * w) as Hhw by nia.
  assert (0 <= h * w * i ∧ h * w * i + h * w <= d * h * w) as [Hlo Hhi] by nia.
  apply Forall_reverse, Forall_fmap.
  eapply Forall_impl; [apply rows_row_length|].
  - rewrite slice_in_bounds by lia. rewrite length_take, length_drop.
    replace (h * w * i + h * w - h * w * i) with (h * w) by lia. nia.
  - intros row Hrow. simpl in *. rewrite length_reverse. lia.
Qed.

(** X2. The decoded volume has the shape asked for: d frames of h rows
    of w samples. *)
Theorem read_img_shape has_sitk p (img_bytes : list Byte.byte) (d h w : Z) mm
    vol spacing sim :
  0 < d → 0 < h → 0 < w →
  read_img_bytes has_sitk p img_bytes (d, h, w) mm = Ret (vol, spacing, sim) →
  has_shape vol d h w.
Proof.
  intros Hd Hh Hw Hrun.
  assert (Z.of_nat (length img_bytes) = d * h * w) as Hlen.
  { destruct (decide (Z.of_nat (length img_bytes) = d * h * w)) as [|Hne]; [done|].
    by rewrite read_img_bytes_mismatch in Hrun. }
  destruct (read_img_bytes_ok has_sitk p img_bytes d h w mm) as [sim' Hok]; [lia..|done|].
  rewrite Hok in Hrun. injection Hrun as <- _ _. split.
  - rewrite length_fmap, range_length. lia.
  - apply Forall_fmap, Forall_forall. intros i Hi%range_bounds. simpl.
    apply (frame_of_shape img_bytes d); lia.
Qed.

Lemma read_img_shape_witness :
  has_shape [[[Byte.x0b; Byte.x0a]]] 1 1 2.
Proof.
  apply (read_img_shape false "scan.img" [Byte.x0a; Byte.x0b] 1 1 2 (6, 2, 6)
           _ (Np.float32_of_int 6, Np.float32_of_int 2, Np.float32_of_int 3) None);
    [lia..|]. vm_compute. reflexivity.
Defined.

Lemma join_flip (a : Np.array2) : mjoin (Np.flip_rows_cols a) = reverse (mjoin a).
Proof.
  unfold Np.flip_rows_cols. induction a as [|row a IH]; [done|].
  rewrite fmap_cons, reverse_cons, join_app, IH. simpl.
  by rewrite app_nil_r, reverse_app.
Qed.

Lemma join_rows (h w : nat) (a : list Byte.byte) : mjoin (Np.rows h w a) = take (h * w) a.
Proof.
  unfold Np.rows. induction h as [|h IH]; [done|].
  rewrite seq_S, fmap_app, join_app, IH. simpl. rewrite app_nil_r.
  replace (w + h * w)%nat with (h * w + w)%nat by lia.
  by rewrite take_add_app_drop || (rewrite <-take_take_drop; done).
Qed.

Lemma encode_frame_of (buf : list Byte.byte) (h w i : Z) :
  0 <= h → 0 <= w → 0 <= i → h * w * i + h * w <= Z.of_nat (length buf) →
  reverse (mjoin (frame_of buf h w i))
  = take (Z.to_nat (h * w)) (drop (Z.to_nat (h * w * i)) buf).
Proof.
  intros Hh Hw Hi Hfit. unfold frame_of.
  rewrite join_flip, reverse_involutive, join_rows, slice_in_bounds by nia.
  rewrite take_take. f_equal. nia.
Qed.

Lemma blocks_join (buf : list Byte.byte) (n k : nat) :
  mjoin ((λ i : nat, take n (drop (n * i) buf)) <$> seq 0 k) = take (n * k) buf.
Proof.
  induction k as [|k IH]; [by rewrite Nat.mul_0_r|].
  rewrite seq_S, fmap_app, join_app, IH. simpl. rewrite app_nil_r.
  replace (n * S k)%nat with (n * k + n)%nat by lia. by rewrite <-take_take_drop.
Qed.

(** X3. Decoding loses nothing: flattening each frame of the decoded
    volume and reversing it gives the file's bytes back, so two buffers
    with the same decoded volume are the same. *)
Theorem read_img_round_trip has_sitk p (img_bytes : list Byte.byte) (d h w : Z) mm
    vol spacing sim :
  0 < d → 0 < h → 0 < w →
  read_img_bytes has_sitk p img_bytes (d, h, w) mm = Ret (vol, spacing, sim) →
  encode_volume vol = img_bytes
  ∧ ∀ p' (img_bytes' : list Byte.byte) mm' spacing' sim',
      read_img_bytes has_sitk p' img_bytes' (d, h, w) mm' = Ret (vol, spacing', sim') →
      img_bytes' = img_bytes.
Proof.
  assert (∀ q (buf : list Byte.byte) m v sp si,
            0 < d → 0 < h → 0 < w →
            read_img_bytes has_sitk q buf (d, h, w) m = Ret (v, sp, si) →
            encode_volume v = buf) as Hback.
  { intros q buf m v sp si Hd Hh Hw Hrun.
    assert (Z.of_nat (length buf) = d * h * w) as Hlen.
    { destruct (decide (Z.of_nat (length buf) = d * h * w)) as [|Hne]; [done|].
      by rewrite read_img_bytes_mismatch in Hrun. }
    destruct (read_img_bytes_ok has_sitk q buf d h w m) as [si' Hok]; [lia..|done|].
    rewrite Hok in Hrun. injection Hrun as <- _ _.
    unfold encode_volume, Py.range. rewrite <-!list_fmap_compose.
    rewrite (list_fmap_ext _ (λ i : nat, take (Z.to_nat (h * w))
                                (drop (Z.to_nat (h * w) * i) buf)) (seq 0 (Z.to_nat d))).
    - rewrite blocks_join. apply take_ge. nia.
    - intros k i Hk. apply lookup_seq in Hk as [-> Hk]. simpl.
      rewrite encode_frame_of by nia. do 2 f_equal. nia. }
  intros Hd Hh Hw Hrun. split; [by eapply Hback|].
  intros p' buf' mm' sp' si' Hrun'.
  rewrite <-(Hback _ _ _ _ _ _ Hd Hh Hw Hrun'). by eapply Hback.
Qed.

Lemma read_img_round_trip_witness :
  encode_volume [[[Byte.x04; Byte.x03]; [Byte.x02; Byte.x01]]]
  = [Byte.x01; Byte.x02; Byte.x03; Byte.x04].
Proof.
  apply (read_img_round_trip false "scan.img" [Byte.x01; Byte.x02; Byte.x03; Byte.x04]
           1 2 2 (6, 2, 6) _ (Np.float32_of_int 6, Np.float32_of_int 1, Np.float32_of_int 3)
           None); [lia..|]. vm_compute. reflexivity.
Defined.

Lemma read_img_bytes_sim has_sitk p (img_bytes : list Byte.byte) size_pix_zyx mm
    vol sz sy sx sim :
  read_img_bytes has_sitk p img_bytes size_pix_zyx mm = Ret (vol, (sz, sy, sx), sim) →
  sim = if has_sitk then Some (SitkImage vol (sx, sy, sz)) else None.
Proof.
  destruct size_pix_zyx as [[d h] w]. unfold read_img_bytes.
  destruct (negb _); [done|].
  destruct (bscan_loop _ _ _ _ _ _) as [frames|]; [|done]. cbn [Py.bind].
  destruct (Np.stack frames) as [v|]; [|done]. cbn [Py.bind].
  destruct (Np.divide3 _ _) as [[z y] x]. intros [= -> -> -> -> <-]. by destruct has_sitk.
Qed.

(** X5. A shape without frames is never decoded: with d <= 0 [read_img]
    fails whatever the buffer, by the size check when the counts differ
    and by [np.stack] on the empty list of frames when they agree. *)
Theorem read_img_needs_a_frame has_sitk p (img_bytes : list Byte.byte) (d h w : Z) mm :
  d <= 0 →
  (Z.of_nat (length img_bytes) ≠ d * h * w →
   read_img_bytes has_sitk p img_bytes (d, h, w) mm
   = Raise (ValueError (size_mismatch_msg p (Z.of_nat (length img_bytes)) (d * h * w) (d, h, w))))
  ∧ (Z.of_nat (length img_bytes) = d * h * w →
     read_img_bytes has_sitk p img_bytes (d, h, w) mm
     = Raise (ValueError "need at least one array to stack")).
Proof.
  intros Hd. split; [apply read_img_bytes_mismatch|].
  intros Hlen. unfold read_img_bytes.
  destruct (Z.eqb_spec (Z.of_nat (length img_bytes)) (d * h * w)); [|done].
  unfold Py.range. replace (Z.to_nat d) with 0%nat by lia. reflexivity.
Qed.

Lemma read_img_needs_a_frame_witness :
  read_img_bytes false "empty.img" [] (0, 1024, 200) (6, 2, 6)
  = Raise (ValueError "need at least one array to stack").
Proof.
  apply (read_img_needs_a_frame false "empty.img" [] 0 1024 200 (6, 2, 6)); [lia|reflexivity].
Defined.

End DecoderMore.

(** ** The output path mapper *)

Section MapperMore.
Import PathLib Mapper More.

Lemma re_sub_all_safe (b : bool) (s : string) :
  all_safe (re_sub_runs unsafe_char "_" b s) = true.
Proof.
  revert b. induction s as [|c s IH]; intros b; [done|]. simpl.
  rewrite unsafe_char_safe. destruct (safe_char c) eqn:Hc; simpl.
  - by rewrite Hc, IH.
  - destruct b; [apply IH|]. change ("_" +:+ ?x) with (String "_" x). simpl. apply IH.
Qed.

Lemma re_sub_safe_id (b : bool) (s : string) :
  all_safe s = true → re_sub_runs unsafe_char "_" b s = s.
Proof.
  revert b. induction s as [|c s IH]; intros b; [done|]. simpl.
  intros [Hc Hs]%andb_true_iff. rewrite unsafe_char_safe, Hc. simpl. by rewrite IH.
Qed.

Lemma re_sub_length (b : bool) (s : string) :
  (String.length (re_sub_runs unsafe_char "_" b s) <= String.length s)%nat.
Proof.
  revert b. induction s as [|c s IH]; intros b; [done|]. simpl.
  destruct (unsafe_char c).
  - destruct b.
    + specialize (IH true). lia.
    + change ("_" +:+ ?x) with (String "_" x). simpl. specialize (IH true). lia.
  - simpl. specialize (IH false). lia.
Qed.

(** X6. The directory name [safe_leaf_foldername] makes holds kept
    characters only and is never longer than the file name; the names
    it leaves as they are are exactly those made of kept characters, so
    applying it twice changes nothing more. *)
Theorem safe_leaf_fixed_points (filename : string) :
  all_safe (safe_leaf_foldername filename) = true
  ∧ (String.length (safe_leaf_foldername filename) <= String.length filename)%nat
  ∧ (safe_leaf_foldername filename = filename ↔ all_safe filename = true)
  ∧ safe_leaf_foldername (safe_leaf_foldername filename) = safe_leaf_foldername filename.
Proof.
  unfold safe_leaf_foldername. split; [apply re_sub_all_safe|].
  split; [apply re_sub_length|]. split; [split|].
  - intros <-. apply re_sub_all_safe.
  - apply re_sub_safe_id.
  - apply re_sub_safe_id, re_sub_all_safe.
Qed.

Lemma re_sub_skip_run (x t : string) :
  all_unsafe x = true →
  re_sub_runs unsafe_char "_" true (x +:+ t) = re_sub_runs unsafe_char "_" true t.
Proof.
  induction x as [|c x IH]; [done|]. cbn [all_unsafe].
  intros [Hc Hx]%andb_true_iff. rewrite append_cons. cbn [re_sub_runs].
  rewrite unsafe_char_safe, Hc. cbn [negb]. auto.
Qed.

Lemma re_sub_run (b : bool) (x t : string) :
  x ≠ EmptyString → all_unsafe x = true →
  re_sub_runs unsafe_char "_" b (x +:+ t)
  = (if b then EmptyString else "_") +:+ re_sub_runs unsafe_char "_" true t.
Proof.
  destruct x as [|c x]; [done|]. intros _. cbn [all_unsafe].
  intros [Hc Hx]%andb_true_iff. rewrite append_cons. cbn [re_sub_runs].
  rewrite unsafe_char_safe, Hc. cbn [negb]. rewrite re_sub_skip_run by done. by destruct b.
Qed.

(** X7. The transform is many-to-one: two file names that differ only
    in what a run of dropped characters is made of get the same
    directory name. *)
Theorem safe_leaf_collides (s x y t : string) :
  x ≠ EmptyString → y ≠ EmptyString → all_unsafe x = true → all_unsafe y = true →
  safe_leaf_foldername (s +:+ x +:+ t) = safe_leaf_foldername (s +:+ y +:+ t).
Proof.
  intros Hx Hy Hux Huy. unfold safe_leaf_foldername.
  enough (∀ b, re_sub_runs unsafe_char "_" b (s +:+ x +:+ t)
               = re_sub_runs unsafe_char "_" b (s +:+ y +:+ t)) as Hall by apply Hall.
  induction s as [|c s IH]; intros b.
  - change (EmptyString +:+ x +:+ t) with (x +:+ t).
    change (EmptyString +:+ y +:+ t) with (y +:+ t). by rewrite !re_sub_run.
  - rewrite !append_cons. cbn [re_sub_runs]. destruct (unsafe_char c).
    + destruct b; by rewrite IH.
    + by rewrite IH.
Qed.

Lemma safe_leaf_collides_witness :
  safe_leaf_foldername "scan 1.img" = safe_leaf_foldername "scan (#1.img".
Proof.
  apply (safe_leaf_collides "scan" " " " (#" "1.img"); done.
Defined.

End MapperMore.

(** ** The conversion of one file *)

Section ProcessMore.
Import PathLib Mapper Decoder FS Zeiss More.
Context (rt : runtime).

(** X8. What fails before the [try] block is not caught: when the source
    cannot be examined, or the output directory cannot be made,
    [process_one] raises the [OSError], reports no outcome, leaves the tree
    as it was and writes no error record. *)
Theorem process_one_raises_early img_path out_root mm force_shape (dry_run overwrite : bool)
    (t : node) (tr : list event) :
  let out_dir := out_dir_of out_root img_path in
  (∀ code, resolve t img_path = inl code →
     process_one rt img_path out_root mm force_shape dry_run overwrite (World t tr)
     = (Raise (OSError code (str img_path)), World t (tr ++ [EvStat img_path])))
  ∧ (∀ n code, resolve t img_path = inr n → mkdir_p t out_dir = inl code →
     process_one rt img_path out_root mm force_shape dry_run overwrite (World t tr)
     = (Raise (OSError code (str out_dir)),
        World t (tr ++ [EvStat img_path; EvMkdir out_dir]))).
Proof.
  intros out_dir. split.
  - intros code Hsrc. rewrite process_one_phases.
    erewrite bind_raise; [done|]. by rewrite stat_run, Hsrc.
  - intros n code Hsrc Hmk. rewrite process_one_phases.
    erewrite bind_ret by (by rewrite stat_run, Hsrc). cbv zeta. fold out_dir.
    erewrite bind_raise; [done|]. rewrite mkdir_run, Hmk. by rewrite <-app_assoc.
Qed.

(** X9. Whenever [process_one] reports an outcome, whatever it is, the
    output directory exists afterwards and is a directory. *)
Theorem process_one_makes_out_dir img_path out_root mm force_shape (dry_run overwrite : bool)
    (σ σ' : world) o :
  process_one rt img_path out_root mm force_shape dry_run overwrite σ = (Ret o, σ') →
  ∃ ch, resolve (tree σ') (out_dir_of out_root img_path) = inr (Dir ch).
Proof.
  intros Hrun. destruct σ as [t tr].
  destruct (process_one_started _ _ _ _ _ _ _ _ _ _ _ Hrun) as (n & t1 & Hn & Hmk).
  rewrite (process_one_head _ _ _ _ _ _ _ t t1 n tr Hn Hmk) in Hrun.
  destruct (mkdir_p_dir _ _ _ Hmk) as [ch1 Hch1].
  destruct (already_done t1 _ && negb overwrite); [injection Hrun as _ <-; eauto|].
  destruct dry_run; [injection Hrun as _ <-; eauto|].
  apply try_inv in Hrun as [(o' & Hconv & _)|(e & [t2 tr2] & _ & Herr)].
  - apply convert_inv in Hconv as (_ & c & vol & sp & sim & _ & _ & _ & _ & Hm).
    by apply (artifact_dir _ _ "meta.json" eq_refl).
  - unfold record_error in Herr.
    apply bind_inv in Herr as [(u & σ3 & Hw & [= _ <-])|(e' & _ & [=])].
    apply write_file_inv in Hw as (t3 & Hw & ->). apply write_resolve in Hw.
    apply (artifact_dir _ _ "error.txt" eq_refl). apply present_true. eauto.
Qed.

(** X10. Nothing is ever removed: whatever [process_one] or the loop
    over the files does, reporting or raising, every path that existed
    before still exists afterwards. *)
Theorem conversion_never_removes :
  (∀ img_path out_root mm force_shape (dry_run overwrite : bool) σ r σ' q,
     process_one rt img_path out_root mm force_shape dry_run overwrite σ = (r, σ') →
     present (tree σ) q = true → present (tree σ') q = true)
  ∧ (∀ files out_root force_shape (dry_run overwrite : bool) max grand_total σ r σ' q,
     batch_loop rt files out_root force_shape dry_run overwrite max grand_total σ = (r, σ') →
     present (tree σ) q = true → present (tree σ') q = true).
Proof.
  split.
  - intros ? ? ? ? ? ? σ r σ' q Hrun. apply present_extends.
    by eapply grows_process_one.
  - intros ? ? ? ? ? ? ? σ r σ' q Hrun. apply present_extends.
    by eapply grows_batch_loop.
Qed.

(** X11. A conversion that fails in [read_img] is reported as ERR with
    the path and the text of the error; in the output directory the only
    change is the file error.txt, which holds that text and a line feed:
    every other entry, artifacts of an earlier run included, is as it was. *)
Theorem failed_conversion_record img_path out_root mm force_shape (overwrite : bool)
    (t t1 : node) (tr : list event) (c : list Byte.byte) (ch : gmap string node) (e : exn) :
  let out_dir := out_dir_of out_root img_path in
  let shape := resolve_shape (Z.of_nat (length c)) force_shape in
  resolve t img_path = inr (File c) → mkdir_p t out_dir = inr t1 →
  resolve t1 out_dir = inr (Dir ch) → no_dir_at ch "error.txt" = true →
  already_done t1 out_dir && negb overwrite = false →
  read_img_bytes (HAS_SITK rt) (str img_path) c shape mm = Raise e →
  ∃ t',
    process_one rt img_path out_root mm force_shape false overwrite (World t tr)
    = (Ret (ERR, str img_path +:+ " :: " +:+ str_exn rt e),
       World t' (tr ++ EvStat img_path :: EvMkdir out_dir :: done_events t1 out_dir
                    ++ [EvRead img_path; EvWrite (out_dir /: "error.txt")]))
    ∧ resolve t' out_dir
      = inr (Dir (<["error.txt" := File (encode_text rt (str_exn rt e +:+ nl))]> ch)).
Proof.
  intros out_dir shape Himg Hmk Hd Hno Hdone Hdec.
  rewrite (process_one_head _ _ _ _ _ _ _ t t1 (File c) tr Himg Hmk).
  fold out_dir. rewrite Hdone. cbn [st_size]. fold shape.
  pose proof (mkdir_p_keeps_files _ _ _ Hmk _ _ Himg) as Himg1. cbn iota in Himg1.
  unfold try_except. rewrite (convert_decode_error _ _ _ _ _ _ _ _ _ _ _ Himg1 Hdec).
  destruct (write_file_in_dir out_dir "error.txt" (encode_text rt (str_exn rt e +:+ nl)) t1
              ((tr ++ EvStat img_path :: EvMkdir out_dir :: done_events t1 out_dir)
                 ++ [EvRead img_path]) ch eq_refl Hd Hno) as (t' & Hw & Hd').
  exists t'. unfold record_error. erewrite bind_ret by exact Hw. split; [|done].
  unfold ret. by rewrite <-!app_assoc.
Qed.

(** X12. A conversion that succeeds leaves in the output directory the
    encoded volume, the encoded spacing and the metadata, and the
    SimpleITK image exactly when SimpleITK is there; the flag
    [sitk_written] of the metadata says which, and its [filesize_bytes]
    is the size of the source.  No other entry of the directory changes. *)
Theorem successful_conversion_artifacts img_path out_root mm force_shape (overwrite : bool)
    (t t1 : node) (tr : list event) (c : list Byte.byte) (ch : gmap string node)
    vol sz sy sx sim :
  let out_dir := out_dir_of out_root img_path in
  let shape := resolve_shape (Z.of_nat (length c)) force_shape in
  let with_nii (m : gmap string node) :=
    if HAS_SITK rt
    then <["vol.nii.gz" := File (nii_gz rt (SitkImage vol (sx, sy, sz)))]> m else m in
  resolve t img_path = inr (File c) → mkdir_p t out_dir = inr t1 →
  resolve t1 out_dir = inr (Dir ch) → forallb (no_dir_at ch) written_names = true →
  already_done t1 out_dir && negb overwrite = false →
  read_img_bytes (HAS_SITK rt) (str img_path) c shape mm = Ret (vol, (sz, sy, sx), sim) →
  ∃ t',
    process_one rt img_path out_root mm force_shape false overwrite (World t tr)
    = (Ret (OK, str img_path),
       World t' (tr ++ EvStat img_path :: EvMkdir out_dir :: done_events t1 out_dir
                    ++ EvRead img_path :: convert_writes out_dir (HAS_SITK rt)))
    ∧ resolve t' out_dir
      = inr (Dir (<["meta.json" := File (encode_text rt (json_dumps rt
                      (meta_of img_path out_dir (relative_under_images img_path) shape
                         (sz, sy, sx) (Z.of_nat (length c)) (HAS_SITK rt))))]>
                  (with_nii (<["spacing_zyx.npy" := File (npy_float32 rt (sz, sy, sx))]>
                               (<["vol.npy" := File (npy_uint8 rt vol)]> ch))))).
Proof.
  intros out_dir shape with_nii Himg Hmk Hd Hw Hdone Hdec.
  pose proof (read_img_bytes_sim _ _ _ _ _ _ _ _ _ _ Hdec) as Hsim.
  cbn [forallb written_names] in Hw.
  apply andb_true_iff in Hw as [Hmeta Hw]. apply andb_true_iff in Hw as [Hvol Hw].
  apply andb_true_iff in Hw as [Hsp Hw]. apply andb_true_iff in Hw as [Hnii _].
  rewrite (process_one_head _ _ _ _ _ _ _ t t1 (File c) tr Himg Hmk).
  fold out_dir. rewrite Hdone. cbn [st_size]. fold shape.
  pose proof (mkdir_p_keeps_files _ _ _ Hmk _ _ Himg) as Himg1. cbn iota in Himg1.
  set (tr0 := tr ++ EvStat img_path :: EvMkdir out_dir :: done_events t1 out_dir).
  unfold try_except, convert.
  erewrite bind_ret; [|unfold read_img; erewrite bind_ret;
                       [|by rewrite fromfile_run, Himg1]; unfold lift; by rewrite Hdec].
  cbn [fst snd].
  destruct (write_file_in_dir out_dir "vol.npy" (npy_uint8 rt vol) t1
              (tr0 ++ [EvRead img_path]) ch eq_refl Hd Hvol) as (t2 & Hw1 & Hd1).
  erewrite bind_ret by exact Hw1.
  destruct (write_file_in_dir out_dir "spacing_zyx.npy" (npy_float32 rt (sz, sy, sx)) t2
              ((tr0 ++ [EvRead img_path]) ++ [EvWrite (out_dir /: "vol.npy")]) _ eq_refl Hd1
              ltac:(by apply no_dir_at_insert)) as (t3 & Hw2 & Hd2).
  erewrite bind_ret by exact Hw2.
  assert (∃ t4 tr4,
    write_nii rt out_dir sim (World t3 (((tr0 ++ [EvRead img_path])
       ++ [EvWrite (out_dir /: "vol.npy")]) ++ [EvWrite (out_dir /: "spacing_zyx.npy")]))
    = (Ret (HAS_SITK rt), World t4 tr4)
    ∧ tr4 ++ [EvWrite (out_dir /: "meta.json")]
      = tr0 ++ EvRead img_path :: convert_writes out_dir (HAS_SITK rt)
    ∧ resolve t4 out_dir
      = inr (Dir (with_nii (<["spacing_zyx.npy" := File (npy_float32 rt (sz, sy, sx))]>
                              (<["vol.npy" := File (npy_uint8 rt vol)]> ch)))))
    as (t4 & tr4 & Hw3 & Htr4 & Hd3).
  { unfold write_nii, convert_writes, with_nii. subst sim.
    destruct (HAS_SITK rt).
    - destruct (write_file_in_dir out_dir "vol.nii.gz"
                  (nii_gz rt (SitkImage vol (sx, sy, sz))) t3
                  (((tr0 ++ [EvRead img_path]) ++ [EvWrite (out_dir /: "vol.npy")])
                     ++ [EvWrite (out_dir /: "spacing_zyx.npy")]) _ eq_refl Hd2
                  ltac:(by do 2 apply no_dir_at_insert)) as (t4 & Hw3 & Hd3).
      eexists t4, _. split; [by erewrite bind_ret by exact Hw3|].
      split; [by rewrite <-!app_assoc|done].
    - eexists t3, _. split; [done|]. split; [by rewrite <-!app_assoc|done]. }
  erewrite bind_ret by exact Hw3.
  destruct (write_file_in_dir out_dir "meta.json"
              (encode_text rt (json_dumps rt
                 (meta_of img_path out_dir (relative_under_images img_path) shape
                    (sz, sy, sx) (Z.of_nat (length c)) (HAS_SITK rt))))
              t4 tr4 _ eq_refl Hd3) as (t5 & Hw4 & Hd4).
  { unfold with_nii. destruct (HAS_SITK rt); by repeat apply no_dir_at_insert. }
  erewrite bind_ret by exact Hw4.
  exists t5. unfold ret. rewrite Htr4. split; [|done]. unfold tr0. by rewrite <-app_assoc.
Qed.

Lemma mkdir_p_adds_no_file (n n' : node) (p : Path) :
  mkdir_p n p = inr n' →
  ∀ q c, resolve n' q = inr (File c) → resolve n q = inr (File c).
Proof.
  revert n n'. induction p as [|s p IH]; intros n n'; simpl.
  - destruct n; [done|]. by intros [= <-].
  - destruct n as [c0|ch0]; [done|].
    destruct (mkdir_p _ p) as [e|m] eqn:Hm; [done|]. intros [= <-] q c.
    destruct q as [|s' q]; [done|]. simpl.
    destruct (decide (s = s')) as [<-|Hne].
    + rewrite lookup_insert_eq. intros Hq. specialize (IH _ _ Hm q c Hq).
      destruct (ch0 !! s) as [m0|]; [done|]. simpl in IH. by destruct q.
    + by rewrite lookup_insert_ne.
Qed.

(** X13. A dry run, for any file that is there and whose output
    directory can be made: the outcome is SKIP when the file is done and
    overwrite is off, DRYRUN otherwise; no file is read and none is
    written; afterwards the tree has the files it had, with their
    contents, and no other file: directories are all that may have been
    added, and nothing at all when the output directory was there. *)
Theorem dry_run_effects img_path out_root mm force_shape (overwrite : bool)
    (t t1 n : node) (tr : list event) :
  let out_dir := out_dir_of out_root img_path in
  resolve t img_path = inr n → mkdir_p t out_dir = inr t1 →
  ∃ st evs,
    process_one rt img_path out_root mm force_shape true overwrite (World t tr)
    = (Ret (st, str img_path), World t1 (tr ++ evs))
    ∧ st = (if already_done t1 out_dir && negb overwrite then SKIP else DRYRUN)
    ∧ forallb quiet evs = true
    ∧ (∀ q c, resolve t1 q = inr (File c) ↔ resolve t q = inr (File c))
    ∧ (∀ ch, resolve t out_dir = inr (Dir ch) → t1 = t).
Proof.
  intros out_dir Hn Hmk.
  rewrite (process_one_head _ _ _ _ _ _ _ t t1 n tr Hn Hmk). fold out_dir.
  exists (if already_done t1 out_dir && negb overwrite then SKIP else DRYRUN),
    (EvStat img_path :: EvMkdir out_dir :: done_events t1 out_dir).
  split; [by destruct (already_done t1 out_dir && negb overwrite)|].
  split; [done|]. split; [apply skip_events_quiet|]. split.
  - intros q c. split; [by apply (mkdir_p_adds_no_file _ _ _ Hmk)|].
    intros Hq. apply (mkdir_p_keeps_files _ _ _ Hmk _ _ Hq).
  - intros ch Hch. rewrite (mkdir_p_exists _ _ _ Hch) in Hmk. by injection Hmk.
Qed.

(** X14. Two sources whose output directories coincide share their
    artifacts: once one of them has been converted, the other one is
    skipped when overwrite is off, and its bytes are never read. *)
Theorem colliding_source_is_skipped img_a img_b out_root mm force_shape
    (dry_run overwrite dry_run' : bool) (σ σ' : world) (msg : string) :
  out_dir_of out_root img_a = out_dir_of out_root img_b →
  present (tree σ) img_b = true →
  process_one rt img_a out_root mm force_shape dry_run overwrite σ = (Ret (OK, msg), σ') →
  ∃ evs,
    process_one rt img_b out_root mm force_shape dry_run' false σ'
    = (Ret (SKIP, str img_b), World (tree σ') (trace σ' ++ evs))
    ∧ forallb quiet evs = true.
Proof.
  intros Hsame Hb Hrun.
  destruct (process_one_settled _ _ _ _ _ _ _ _ _ _ _ Hrun ltac:(by left))
    as (_ & _ & Hdone).
  assert (settled (tree σ') out_root img_b = true) as Hset.
  { unfold settled. rewrite <-Hsame, Hdone, andb_true_r.
    eapply present_extends; [by eapply grows_process_one|done]. }
  destruct σ' as [t' tr']. eexists. split; [by apply process_one_skip|].
  apply skip_events_quiet.
Qed.

End ProcessMore.

Section ProcessMoreWitnesses.
Import PathLib Mapper Decoder FS Zeiss More.

Lemma process_one_raises_early_witness :
  process_one example_runtime example_img example_out (6, 2, 6) None false false
    (World example_blocked [])
  = (Raise (OSError ENOTDIR (str (out_dir_of example_out example_img))),
     World example_blocked
       ([] ++ [EvStat example_img; EvMkdir (out_dir_of example_out example_img)])).
Proof.
  apply (proj2 (process_one_raises_early example_runtime example_img example_out (6, 2, 6)
                  None false false example_blocked []) (File [Byte.x0a; Byte.x0b]) ENOTDIR);
    vm_compute; reflexivity.
Defined.

Lemma process_one_makes_out_dir_witness :
  ∃ ch,
    resolve (tree (process_one example_runtime example_img example_out (6, 2, 6) None
                     true false (World example_fresh [])).2)
      (out_dir_of example_out example_img) = inr (Dir ch).
Proof.
  apply (process_one_makes_out_dir example_runtime example_img example_out (6, 2, 6) None
           true false (World example_fresh []) _ (DRYRUN, str example_img)).
  vm_compute. reflexivity.
Defined.

Lemma conversion_never_removes_witness :
  present (tree (process_one example_runtime example_img example_out (6, 2, 6) None
                   false false (World example_fresh [])).2) example_img = true.
Proof.
  apply (proj1 (conversion_never_removes example_runtime) example_img example_out (6, 2, 6)
           None false false (World example_fresh [])
           (process_one example_runtime example_img example_out (6, 2, 6) None
              false false (World example_fresh [])).1).
  - apply surjective_pairing.
  - vm_compute. reflexivity.
Defined.

Lemma failed_conversion_record_witness :
  ∃ t',
    process_one example_runtime example_img example_out (6, 2, 6) None false false
      (World example_fresh [])
    = (Ret (ERR, str example_img +:+ " :: " +:+
                 size_mismatch_msg (str example_img) 2 40960000 (200, 1024, 200)),
       World t' ([] ++ EvStat example_img :: EvMkdir (out_dir_of example_out example_img)
                    :: done_events
                         (match mkdir_p example_fresh (out_dir_of example_out example_img) with
                          | inr t1 => t1
                          | inl _ => example_fresh
                          end) (out_dir_of example_out example_img)
                    ++ [EvRead example_img;
                        EvWrite (out_dir_of example_out example_img /: "error.txt")]))
    ∧ present t' (example_out_dir ++ ["error.txt"]) = true.
Proof.
  destruct (failed_conversion_record example_runtime example_img example_out (6, 2, 6) None
              false example_fresh
              (match mkdir_p example_fresh (out_dir_of example_out example_img) with
               | inr t1 => t1
               | inl _ => example_fresh
               end)
              [] [Byte.x0a; Byte.x0b] ∅
              (ValueError (size_mismatch_msg (str example_img) 2 40960000 (200, 1024, 200)))
              ltac:(vm_compute; reflexivity) ltac:(vm_compute; reflexivity)
              ltac:(vm_compute; reflexivity) ltac:(vm_compute; reflexivity)
              ltac:(vm_compute; reflexivity) ltac:(vm_compute; reflexivity))
    as (t' & Hrun & Hd).
  exists t'. split; [exact Hrun|].
  unfold present. change (example_out_dir ++ ["error.txt"])
    with (out_dir_of example_out example_img ++ ["error.txt"]).
  rewrite resolve_app, Hd. simpl. by rewrite lookup_insert_eq.
Defined.

Lemma successful_conversion_artifacts_witness :
  ∃ t',
    (process_one example_runtime example_img example_out (6, 2, 6) (Some (1, 1, 2))
       false false (World example_fresh [])).1
    = Ret (OK, str example_img)
    ∧ (process_one example_runtime example_img example_out (6, 2, 6) (Some (1, 1, 2))
         false false (World example_fresh [])).2.(tree) = t'
    ∧ present t' (example_out_dir ++ ["vol.nii.gz"]) = false.
Proof.
  destruct (successful_conversion_artifacts example_runtime example_img example_out (6, 2, 6)
              (Some (1, 1, 2)) false example_fresh
              (match mkdir_p example_fresh (out_dir_of example_out example_img) with
               | inr t1 => t1
               | inl _ => example_fresh
               end)
              [] [Byte.x0a; Byte.x0b] ∅ [[[Byte.x0b; Byte.x0a]]]
              (Np.float32_of_int 6) (Np.float32_of_int 2) (Np.float32_of_int 3) None
              ltac:(vm_compute; reflexivity) ltac:(vm_compute; reflexivity)
              ltac:(vm_compute; reflexivity) ltac:(vm_compute; reflexivity)
              ltac:(vm_compute; reflexivity) ltac:(vm_compute; reflexivity))
    as (t' & Hrun & Hd).
  exists t'. rewrite Hrun. split; [done|]. split; [done|].
  unfold present. change (example_out_dir ++ ["vol.nii.gz"])
    with (out_dir_of example_out example_img ++ ["vol.nii.gz"]).
  rewrite resolve_app, Hd. reflexivity.
Defined.

Lemma dry_run_effects_witness :
  ∃ st evs,
    process_one example_runtime example_img example_out (6, 2, 6) None true false
      (World example_done [])
    = (Ret (st, str example_img), World example_done ([] ++ evs))
    ∧ st = SKIP.
Proof.
  destruct (dry_run_effects example_runtime example_img example_out (6, 2, 6) None false
              example_done example_done (File [Byte.x0a; Byte.x0b]) []
              ltac:(vm_compute; reflexivity) ltac:(vm_compute; reflexivity))
    as (st & evs & Hrun & Hst & _).
  exists st, evs. split; [exact Hrun|]. rewrite Hst. vm_compute. reflexivity.
Defined.

Lemma colliding_source_is_skipped_witness :
  ∃ evs,
    process_one example_runtime twin_b example_out (6, 2, 6) (Some (1, 1, 2)) false false
      (process_one example_runtime twin_a example_out (6, 2, 6) (Some (1, 1, 2)) false false
         (World example_twins [])).2
    = (Ret (SKIP, str twin_b),
       World (tree (process_one example_runtime twin_a example_out (6, 2, 6)
                      (Some (1, 1, 2)) false false (World example_twins [])).2)
             (trace (process_one example_runtime twin_a example_out (6, 2, 6)
                       (Some (1, 1, 2)) false false (World example_twins [])).2 ++ evs))
    ∧ forallb quiet evs = true.
Proof.
  apply (colliding_source_is_skipped example_runtime twin_a twin_b example_out (6, 2, 6)
           (Some (1, 1, 2)) false false false (World example_twins []) _ (str twin_a));
    vm_compute; reflexivity.
Defined.

End ProcessMoreWitnesses.

(** ** The batch driver *)

Section Preserved.
Import PathLib Mapper Decoder FS Zeiss Batch.
Context (rt : runtime) (R : world → world → Prop).
Hypothesis R_refl : ∀ σ, R σ σ.
Hypothesis R_trans : ∀ σ1 σ2 σ3, R σ1 σ2 → R σ2 σ3 → R σ1 σ3.

Lemma preserves_ret {A} (x : A) : preserves R (ret x).
Proof. intros σ r σ' [= <- <-]. apply R_refl. Qed.

Lemma preserves_raise {A} (e : exn) : preserves R (@raise A e).
Proof. intros σ r σ' [= <- <-]. apply R_refl. Qed.

Lemma preserves_lift {A} (x : result A) : preserves R (lift x).
Proof. intros σ r σ' [= <- <-]. apply R_refl. Qed.

Lemma preserves_bind {A B} (m : IO A) (k : A → IO B) :
  preserves R m → (∀ x, preserves R (k x)) → preserves R (FS.bind m k).
Proof.
  intros Hm Hk σ r σ' [(x & σ1 & Hmx & Hkx)|(e & Hme & _)]%bind_inv.
  - eapply R_trans; [by eapply Hm|by eapply Hk].
  - by eapply Hm.
Qed.

Lemma preserves_try {A} (m : IO A) (h : exn → IO A) :
  preserves R m → (∀ e, preserves R (h e)) → preserves R (try_except m h).
Proof.
  intros Hm Hh σ r σ' [(x & Hmx & _)|(e & σ1 & Hme & Hhe)]%try_inv.
  - by eapply Hm.
  - eapply R_trans; [by eapply Hm|by eapply Hh].
Qed.

Lemma preserves_check (out_dir : Path) :
  (∀ p, preserves R (exists_ p)) → preserves R (check_already_done out_dir).
Proof.
  intros He. unfold check_already_done, and_.
  apply preserves_bind; [|intros [|]; [apply He|apply preserves_ret]].
  apply preserves_bind; [apply He|intros [|]; [apply He|apply preserves_ret]].
Qed.

Lemma preserves_convert img_path out_dir rel shape mm n_bytes :
  (∀ p, preserves R (np_fromfile p)) → (∀ p c, preserves R (write_file p c)) →
  preserves R (convert rt img_path out_dir rel shape mm n_bytes).
Proof.
  intros Hr Hw. unfold convert, read_img.
  apply preserves_bind; [|intros r].
  { apply preserves_bind; [apply Hr|intros; apply preserves_lift]. }
  apply preserves_bind; [apply Hw|intros _].
  apply preserves_bind; [apply Hw|intros _].
  apply preserves_bind; [|intros sw].
  { unfold write_nii. destruct (r.2); [|apply preserves_ret].
    destruct (HAS_SITK rt); [|apply preserves_ret].
    apply preserves_bind; [apply Hw|intros; apply preserves_ret]. }
  apply preserves_bind; [apply Hw|intros _]. apply preserves_ret.
Qed.

Lemma preserves_record_error img_path out_dir e :
  (∀ p c, preserves R (write_file p c)) →
  preserves R (record_error rt img_path out_dir e).
Proof.
  intros Hw. unfold record_error.
  apply preserves_bind; [apply Hw|intros; apply preserves_ret].
Qed.

Lemma preserves_process_one img_path out_root mm force_shape (dry_run overwrite : bool) :
  preserves R (stat_st_size rt img_path) →
  (∀ p, preserves R (mkdir_parents_exist_ok p)) →
  (∀ p, preserves R (exists_ p)) →
  (dry_run = false →
   (∀ p, preserves R (np_fromfile p)) ∧ (∀ p c, preserves R (write_file p c))) →
  preserves R (process_one rt img_path out_root mm force_shape dry_run overwrite).
Proof.
  intros Hs Hm He Hrw σ r σ'. rewrite process_one_phases. revert σ r σ'.
  apply preserves_bind; [apply Hs|intros n_bytes]. cbv zeta.
  apply preserves_bind; [apply Hm|intros _].
  apply preserves_bind; [by apply preserves_check|intros dn].
  destruct (dn && negb overwrite); [apply preserves_ret|].
  destruct dry_run; [apply preserves_ret|].
  destruct (Hrw eq_refl) as [Hr Hw].
  apply preserves_try; [by apply preserves_convert|intros e; by apply preserves_record_error].
Qed.

Lemma iterdir_dirs_world (d : Path) (σ σ' : world) r :
  iterdir_dirs d σ = (r, σ') → σ' = σ.
Proof.
  unfold iterdir_dirs, FS.bind, get_tree.
  destruct (resolve (tree σ) d) as [|[]]; by intros [= _ <-].
Qed.

Lemma preserves_iterdir (d : Path) : preserves R (iterdir_dirs d).
Proof. intros σ r σ' ->%iterdir_dirs_world. apply R_refl. Qed.

Lemma insert_sorted_Forall {A} (P : A → Prop) (leb : A → A → bool) (x : A) (l : list A) :
  P x → Forall P l → Forall P (insert_sorted leb x l).
Proof.
  intros Hx Hl. induction Hl as [|y l Hy Hl IH]; cbn [insert_sorted].
  - by constructor.
  - destruct (leb x y); repeat constructor; auto.
Qed.

Lemma sorted_Forall {A} (P : A → Prop) (leb : A → A → bool) (l : list A) :
  Forall P l → Forall P (sorted leb l).
Proof.
  unfold sorted. induction 1 as [|x l Hx Hl IH]; cbn [foldr]; [constructor|].
  by apply insert_sorted_Forall.
Qed.

(** Enumerating changes nothing, and yields only names that pass the
    test of [main]. *)
Lemma list_images_inv glob_match (d : Path) (pattern : string) (σ σ' : world) r :
  list_images glob_match d pattern σ = (r, σ') →
  σ' = σ ∧ ∃ l, r = Ret l ∧ Forall (λ p, cube_name p = true) l.
Proof.
  unfold list_images, FS.bind, get_tree.
  destruct (resolve (tree σ) d) as [|n]; intros [= <- <-]; (split; [done|]).
  - exists []. by split.
  - eexists. split; [done|]. apply Forall_forall. intros p Hp.
    apply list_elem_of_filter in Hp as [[_ Hc] _]. exact Hc.
Qed.

Context (glob_match : string → Path → bool) (a : args).
Hypothesis R_exists : ∀ p, preserves R (exists_ p).
Hypothesis R_process :
  ∀ p, cube_name p = true →
    preserves R (process_one rt p (args_out a) (6, 2, 6) (args_force_shape a)
                   (args_dry_run a) (args_overwrite a)).

Lemma preserves_file_loop site_id patient_id n_files todo i c acc :
  Forall (λ p, cube_name p = true) todo →
  preserves R (file_loop rt a site_id patient_id n_files todo i c acc).
Proof.
  intros Hall. revert i c acc. induction Hall as [|p rest Hp _ IH]; intros i c acc.
  - apply preserves_ret.
  - cbn [file_loop]. apply preserves_bind; [by apply R_process|intros r].
    cbv zeta. destruct (negb _ && _); [apply preserves_ret|apply IH].
Qed.

Lemma preserves_patient_loop site_id todo acc :
  preserves R (patient_loop rt glob_match a site_id todo acc).
Proof.
  revert acc. induction todo as [|pd rest IH]; intros acc.
  - apply preserves_ret.
  - cbn [patient_loop]. cbv zeta.
    apply preserves_bind; [apply R_exists|intros has_vdir].
    destruct has_vdir; cbn [negb]; [|apply IH].
    apply preserves_bind; [apply R_exists|intros has_cirrus].
    destruct has_cirrus; cbn [negb]; [|apply IH].
    intros σ r σ' [(l & σ1 & Hl & Hrest)|(e & He & _)]%bind_inv.
    + apply list_images_inv in Hl as [-> (l' & [= <-] & Hall)].
      destruct l as [|p l]; [by eapply IH|]. revert Hrest.
      apply preserves_bind; [by apply preserves_file_loop, sorted_Forall|].
      intros [[acc' [[ok skip] err]] returned].
      destruct returned; [apply preserves_ret|apply IH].
    + apply list_images_inv in He as [-> _]. apply R_refl.
Qed.

Lemma preserves_site_loop todo acc :
  preserves R (site_loop rt glob_match a todo acc).
Proof.
  revert acc. induction todo as [|site_id rest IH]; intros acc.
  - apply preserves_ret.
  - cbn [site_loop]. cbv zeta.
    apply preserves_bind; [apply R_exists|intros has_site].
    destruct has_site; cbn [negb]; [|apply IH].
    apply preserves_bind; [apply preserves_iterdir|intros patient_dirs].
    apply preserves_bind; [apply preserves_patient_loop|intros r].
    destruct (r.2); [apply preserves_ret|apply IH].
Qed.

Hypothesis R_mkdir : preserves R (mkdir_parents_exist_ok (args_out a)).

Lemma preserves_main : preserves R (main rt glob_match a).
Proof.
  unfold main. apply preserves_bind; [apply R_mkdir|intros _].
  apply preserves_bind; [|intros sites].
  { destruct (String.eqb _ _); [|apply preserves_ret].
    apply preserves_bind; [apply preserves_iterdir|intros; apply preserves_ret]. }
  apply preserves_bind; [apply preserves_site_loop|intros r].
  destruct (r.2); apply preserves_ret.
Qed.

End Preserved.

Section BatchFacts.
Import PathLib Mapper Decoder FS Zeiss Batch.
Context (rt : runtime).

(** *** The relations kept *)

Lemma adds_refl φ σ : adds φ σ σ.
Proof. exists []. by rewrite app_nil_r. Qed.

Lemma adds_trans φ σ1 σ2 σ3 : adds φ σ1 σ2 → adds φ σ2 σ3 → adds φ σ1 σ3.
Proof.
  intros (e1 & H1 & F1) (e2 & H2 & F2). exists (e1 ++ e2).
  rewrite H2, H1, app_assoc, forallb_app, F1, F2. done.
Qed.

Lemma adds_one φ (ev : event) (t t' : node) (tr : list event) :
  φ ev = true → adds φ (World t tr) (World t' (tr ++ [ev])).
Proof. intros Hev. exists [ev]. cbn. by rewrite Hev. Qed.

Lemma adds_stat φ (p : Path) :
  φ (EvStat p) = true → preserves (adds φ) (stat_st_size rt p).
Proof.
  intros Hev [t tr] r σ'. rewrite stat_run.
  destruct (resolve t p); intros [= <- <-]; by apply adds_one.
Qed.

Lemma adds_mkdir φ (p : Path) :
  φ (EvMkdir p) = true → preserves (adds φ) (mkdir_parents_exist_ok p).
Proof.
  intros Hev [t tr] r σ'. rewrite mkdir_run.
  destruct (mkdir_p t p); intros [= <- <-]; by apply adds_one.
Qed.

Lemma adds_exists φ (p : Path) :
  φ (EvExists p) = true → preserves (adds φ) (exists_ p).
Proof. intros Hev [t tr] r σ'. rewrite exists_run. intros [= <- <-]. by apply adds_one. Qed.

Lemma adds_fromfile φ (p : Path) :
  φ (EvRead p) = true → preserves (adds φ) (np_fromfile p).
Proof.
  intros Hev [t tr] r σ'. rewrite fromfile_run.
  destruct (resolve t p) as [|[]]; intros [= <- <-]; by apply adds_one.
Qed.

Lemma adds_write φ (p : Path) (c : list Byte.byte) :
  φ (EvWrite p) = true → preserves (adds φ) (write_file p c).
Proof.
  intros Hev [t tr] r σ'. rewrite write_run.
  destruct (write t p c); intros [= <- <-]; by apply adds_one.
Qed.

Lemma adds_process_one φ img_path out_root mm force_shape (dry_run overwrite : bool) :
  φ (EvStat img_path) = true →
  (∀ p, φ (EvMkdir p) = true) → (∀ p, φ (EvExists p) = true) →
  (dry_run = false → ∀ p, φ (EvRead p) = true ∧ φ (EvWrite p) = true) →
  preserves (adds φ) (process_one rt img_path out_root mm force_shape dry_run overwrite).
Proof.
  intros Hs Hm He Hrw.
  apply preserves_process_one; [apply adds_refl|apply adds_trans|by apply adds_stat| | |].
  - intros p. by apply adds_mkdir.
  - intros p. by apply adds_exists.
  - intros Hd. split; [intros p; apply adds_fromfile|intros p c; apply adds_write]; by apply Hrw.
Qed.

Lemma same_files_refl σ : same_files σ σ.
Proof. by intros q c. Qed.

Lemma same_files_trans σ1 σ2 σ3 : same_files σ1 σ2 → same_files σ2 σ3 → same_files σ1 σ3.
Proof. intros H1 H2 q c. etrans; [apply H2|apply H1]. Qed.

Lemma same_files_stat (p : Path) : preserves same_files (stat_st_size rt p).
Proof.
  intros [t tr] r σ'. rewrite stat_run.
  destruct (resolve t p); intros [= <- <-]; by intros q c.
Qed.

Lemma same_files_exists (p : Path) : preserves same_files (exists_ p).
Proof. intros [t tr] r σ'. rewrite exists_run. intros [= <- <-]. by intros q c. Qed.

Lemma same_files_mkdir (p : Path) : preserves same_files (mkdir_parents_exist_ok p).
Proof.
  intros [t tr] r σ'. rewrite mkdir_run.
  destruct (mkdir_p t p) as [|t1] eqn:Hmk; intros [= <- <-]; [by intros q c|].
  intros q c. cbn [tree]. split.
  - by apply (mkdir_p_adds_no_file _ _ _ Hmk).
  - intros Hq. apply (mkdir_p_keeps_files _ _ _ Hmk _ _ Hq).
Qed.

Lemma keeps_paths_exists (p : Path) : preserves keeps_paths (exists_ p).
Proof.
  intros [t tr] r σ'. rewrite exists_run. intros [= <- <-].
  unfold keeps_paths. apply extends_refl.
Qed.

(** *** The counters *)

Lemma examined_app (l1 l2 : list event) : examined (l1 ++ l2) = examined l1 ++ examined l2.
Proof. apply omap_app. Qed.

Lemma examined_no_stat (evs : list event) : forallb no_stat evs = true → examined evs = [].
Proof.
  induction evs as [|ev evs IH]; [done|]. cbn [forallb]. intros [Hev Hevs]%andb_prop.
  destruct ev; try done; by apply IH.
Qed.

Lemma examined_done_events (t : node) (out_dir : Path) : examined (done_events t out_dir) = [].
Proof.
  unfold done_events.
  by destruct (present t (meta_json out_dir)), (present t (vol_npy out_dir)).
Qed.

Lemma adds_no_stat (σ σ' : world) : adds no_stat σ σ' → examined (trace σ') = examined (trace σ).
Proof.
  intros (evs & -> & Hno). by rewrite examined_app, (examined_no_stat evs), app_nil_r.
Qed.

(** A call of [process_one] that returns has examined its source once,
    and reports DRYRUN only in a dry run, OK and ERR only in a real one. *)
Lemma process_one_step img_path out_root mm force_shape (dry_run overwrite : bool)
    (σ σ' : world) o :
  process_one rt img_path out_root mm force_shape dry_run overwrite σ = (Ret o, σ') →
  examined (trace σ') = examined (trace σ) ++ [img_path]
  ∧ (if dry_run then o.1 = SKIP ∨ o.1 = DRYRUN else o.1 ≠ DRYRUN).
Proof.
  destruct σ as [t tr]. intros Hrun.
  destruct (process_one_started _ _ _ _ _ _ _ _ _ _ _ Hrun) as (n & t1 & Hn & Hmk).
  rewrite (process_one_head _ _ _ _ _ _ _ t t1 n tr Hn Hmk) in Hrun.
  set (out_dir := out_dir_of out_root img_path) in *.
  assert (examined (tr ++ EvStat img_path :: EvMkdir out_dir :: done_events t1 out_dir)
          = examined tr ++ [img_path]) as Hσ1.
  { rewrite examined_app. f_equal.
    change (img_path :: examined (done_events t1 out_dir) = [img_path]).
    by rewrite examined_done_events. }
  destruct (already_done t1 out_dir && negb overwrite).
  { injection Hrun as <- <-. split; [done|]. destruct dry_run; cbn; auto. }
  destruct dry_run.
  { injection Hrun as <- <-. split; [done|]. cbn. auto. }
  assert (∀ p, preserves (adds no_stat) (np_fromfile p)) as Hr
    by (intros p; by apply adds_fromfile).
  assert (∀ p c, preserves (adds no_stat) (write_file p c)) as Hw
    by (intros p c; by apply adds_write).
  apply try_inv in Hrun as [(o' & Hconv & [= <-])|(e & σ1 & Hconv & Herr)].
  - split.
    + pose proof (preserves_convert rt (adds no_stat) (adds_refl _) (adds_trans _)
                    _ _ _ _ _ _ Hr Hw _ _ _ Hconv) as Hadd.
      apply adds_no_stat in Hadd. by rewrite Hadd.
    + apply convert_inv in Hconv as [-> _]. done.
  - split.
    + pose proof (preserves_convert rt (adds no_stat) (adds_refl _) (adds_trans _)
                    _ _ _ _ _ _ Hr Hw _ _ _ Hconv) as Hadd1.
      pose proof (preserves_record_error rt (adds no_stat) (adds_refl _) (adds_trans _)
                    _ _ _ Hw _ _ _ Herr) as Hadd2.
      apply adds_no_stat in Hadd1, Hadd2. by rewrite Hadd2, Hadd1.
    + apply record_error_inv in Herr. by rewrite Herr.
Qed.

Lemma counted_say a k (line : string) (acc : progress) (σ : world) :
  counted a k false acc σ → counted a k false (say line acc) σ.
Proof. intros (Ht & Hc & Hm & _). split; [exact Ht|split; [exact Hc|split; [exact Hm|done]]]. Qed.

Lemma counted_exists a k (p : Path) (acc : progress) (σ σ' : world) r :
  exists_ p σ = (r, σ') → counted a k false acc σ → counted a k false acc σ'.
Proof.
  destruct σ as [t tr]. rewrite exists_run. intros [= _ <-] (Ht & Hc & Hm & Hl).
  split; [exact Ht|split; [|split; [exact Hm|exact Hl]]].
  cbn [trace] in *. by rewrite examined_app, app_nil_r.
Qed.

Lemma file_loop_counted a k site_id patient_id n_files todo i c acc σ acc' c' b σ' :
  file_loop rt a site_id patient_id n_files todo i c acc σ = (Ret (acc', c', b), σ') →
  counted a k false acc σ → counted a k b acc' σ'.
Proof.
  revert i c acc σ. induction todo as [|p rest IH]; intros i c acc σ Hrun Hinv.
  - by injection Hrun as <- <- <- <-.
  - cbn [file_loop] in Hrun.
    apply bind_inv in Hrun as [(r & σ1 & Hp & Hrest)|(e & _ & [=])].
    apply process_one_step in Hp as [Hex Hst]. cbv zeta in Hrest.
    destruct Hinv as ((Hok & Hskip & Herr & Htal) & Hc & Hm & _).
    destruct (negb (args_max a =? 0) && (args_max a <=? _)) eqn:Hcap.
    + injection Hrest as <- <- <- <-.
      apply andb_prop in Hcap as [_ Hcap%Z.leb_le].
      split; [|split; [|split]].
      * unfold tallied. destruct (r.1), (args_dry_run a); cbn in *; try lia;
          destruct Hst; done.
      * rewrite Hex, length_app. destruct (r.1); cbn in *; lia.
      * intros Hpos. specialize (Hm Hpos). destruct (r.1); cbn in *; lia.
      * intros _. cbn [say stdout]. by rewrite last_snoc.
    + apply IH in Hrest; [done|].
      apply andb_false_iff in Hcap.
      split; [|split; [|split]].
      * unfold tallied. destruct (r.1), (args_dry_run a); cbn in *; try lia;
          destruct Hst; done.
      * rewrite Hex, length_app. destruct (r.1); cbn in *; lia.
      * intros Hpos. specialize (Hm Hpos).
        destruct Hcap as [Hz%negb_false_iff%Z.eqb_eq|Hlt%Z.leb_gt]; [lia|].
        destruct (r.1); cbn in *; lia.
      * done.
Qed.

Lemma patient_loop_counted glob_match a k site_id todo acc σ acc' b σ' :
  patient_loop rt glob_match a site_id todo acc σ = (Ret (acc', b), σ') →
  counted a k false acc σ → counted a k b acc' σ'.
Proof.
  revert acc σ. induction todo as [|pd rest IH]; intros acc σ Hrun Hinv.
  - by injection Hrun as <- <- <-.
  - cbn [patient_loop] in Hrun. cbv zeta in Hrun.
    apply bind_inv in Hrun as [(has_vdir & σ1 & Hv & Hrun)|(e & _ & [=])].
    pose proof (counted_exists a k _ acc _ _ _ Hv Hinv) as Hinv1.
    destruct has_vdir; cbn [negb] in Hrun; [|by eapply IH].
    apply bind_inv in Hrun as [(has_cirrus & σ2 & Hc & Hrun)|(e & _ & [=])].
    pose proof (counted_exists a k _ acc _ _ _ Hc Hinv1) as Hinv2.
    destruct has_cirrus; cbn [negb] in Hrun; [|by eapply IH].
    apply bind_inv in Hrun as [(l & σ3 & Hl & Hrun)|(e & _ & [=])].
    apply list_images_inv in Hl as [-> _].
    destruct l as [|p l]; [by eapply IH|].
    apply bind_inv in Hrun as [([[acc1 [[ok skip] err]] returned] & σ4 & Hf & Hrun)
                              |(e & _ & [=])].
    apply (file_loop_counted a k) in Hf; [|by apply counted_say].
    destruct returned; [by injection Hrun as <- <- <-|].
    eapply IH; [exact Hrun|]. by apply counted_say.
Qed.

Lemma site_loop_counted glob_match a k todo acc σ acc' b σ' :
  site_loop rt glob_match a todo acc σ = (Ret (acc', b), σ') →
  counted a k false acc σ → counted a k b acc' σ'.
Proof.
  revert acc σ. induction todo as [|site_id rest IH]; intros acc σ Hrun Hinv.
  - by injection Hrun as <- <- <-.
  - cbn [site_loop] in Hrun. cbv zeta in Hrun.
    apply bind_inv in Hrun as [(has_site & σ1 & Hs & Hrun)|(e & _ & [=])].
    pose proof (counted_exists a k _ acc _ _ _ Hs Hinv) as Hinv1.
    destruct has_site; cbn [negb] in Hrun.
    + apply bind_inv in Hrun as [(pds & σ2 & Hpd & Hrun)|(e & _ & [=])].
      apply iterdir_dirs_world in Hpd as ->.
      apply bind_inv in Hrun as [([acc1 returned] & σ3 & Hp & Hrun)|(e & _ & [=])].
      apply (patient_loop_counted _ a k) in Hp; [|by apply counted_say].
      cbn [snd fst] in Hrun.
      destruct returned; [by injection Hrun as <- <- <-|]. by eapply IH.
    + eapply IH; [exact Hrun|].
      destruct Hinv1 as (Ht & Hc & Hm & Hl).
      split; [exact Ht|split; [exact Hc|split; [exact Hm|done]]].
Qed.

(** What a run of [main] that returns leaves. *)
Lemma main_counted glob_match a σ acc σ' :
  main rt glob_match a σ = (Ret acc, σ') →
  ∃ b, counted a (length (examined (trace σ))) b acc σ'
       ∧ last (stdout acc) = Some (done_line acc).
Proof.
  unfold main. intros [(u & σ1 & Hmk & Hrun)|(e & _ & [=])]%bind_inv.
  assert (counted a (length (examined (trace σ))) false (Progress 0 0 0 0 [] []) σ1) as Hinv.
  { destruct σ as [t tr]. rewrite mkdir_run in Hmk.
    destruct (mkdir_p t (args_out a)); [done|]. injection Hmk as _ <-.
    split; [|split; [|split]]; cbn [trace grand_total].
    - unfold tallied. destruct (args_dry_run a); cbn; lia.
    - rewrite examined_app. cbn. rewrite app_nil_r. lia.
    - done.
    - done. }
  apply bind_inv in Hrun as [(sites & σ2 & Hsites & Hrun)|(e & _ & [=])].
  assert (σ2 = σ1) as ->.
  { destruct (String.eqb _ _); [|by injection Hsites as _ <-].
    apply bind_inv in Hsites as [(ds & σ3 & Hds & [= _ <-])|(e & _ & [=])].
    by apply iterdir_dirs_world in Hds. }
  apply bind_inv in Hrun as [([acc1 returned] & σ3 & Hs & Hrun)|(e & _ & [=])].
  apply (site_loop_counted _ a (length (examined (trace σ)))) in Hs; [|done].
  cbn [fst snd] in Hrun.
  destruct returned; injection Hrun as <- <-.
  - exists true. split; [done|]. by apply Hs.
  - exists false. destruct Hs as (Ht & Hc & Hm & _).
    split; [|cbn [say stdout]; by rewrite last_snoc].
    split; [exact Ht|split; [exact Hc|split; [exact Hm|done]]].
Qed.

End BatchFacts.

(** ** Further properties of the batch driver *)

Section BatchMore.
Import PathLib Mapper Decoder FS Zeiss Batch.
Context (rt : runtime) (glob_match : string → Path → bool).

Lemma examined_cubes (evs : list event) :
  forallb stat_of_cube evs = true → Forall (λ p, cube_name p = true) (examined evs).
Proof.
  induction evs as [|ev evs IH]; [constructor|].
  cbn [forallb]. intros [Hev Hevs]%andb_prop.
  destruct ev; try (by apply IH). constructor; [done|by apply IH].
Qed.

Lemma main_adds_cubes a : preserves (adds stat_of_cube) (main rt glob_match a).
Proof.
  apply preserves_main; [apply adds_refl|apply adds_trans| | |].
  - intros p. by apply adds_exists.
  - intros p Hp. by apply adds_process_one.
  - by apply adds_mkdir.
Qed.

(** X15. The counters of a batch that ran to its end agree: none is
    negative; in a real run every file counted is counted as OK, SKIP or
    ERR, so the three add up to the total; in a dry run no file is counted
    as OK or ERR.  The last line printed is the [DONE] line with these
    counters, whether the batch ended or was stopped by the cap. *)
Theorem main_tally a (σ σ' : world) (acc : progress) :
  main rt glob_match a σ = (Ret acc, σ') →
  tallied (args_dry_run a) acc ∧ last (stdout acc) = Some (done_line acc).
Proof.
  intros (b & (Ht & _) & Hl)%main_counted. by split.
Qed.

(** X16. [grand_total] is the number of files given to [process_one]:
    a batch that ran to its end has examined exactly that many files. *)
Theorem main_counts_examined a (σ σ' : world) (acc : progress) :
  main rt glob_match a σ = (Ret acc, σ') →
  ∃ evs, trace σ' = trace σ ++ evs
         ∧ Z.of_nat (length (examined evs)) = grand_total acc.
Proof.
  intros Hrun. destruct (main_adds_cubes a _ _ _ Hrun) as (evs & Htr & _).
  apply main_counted in Hrun as (b & (_ & Hc & _) & _).
  exists evs. split; [done|]. rewrite Htr, examined_app, length_app in Hc. lia.
Qed.

(** X17. Whatever the pattern, and whether the batch ends, is stopped or
    raises, the only files examined are files whose name contains
    200x200. *)
Theorem main_examines_cubes_only a (σ σ' : world) r :
  main rt glob_match a σ = (r, σ') →
  ∃ evs, trace σ' = trace σ ++ evs
         ∧ Forall (λ p, contains "200x200" (name p) = true) (examined evs).
Proof.
  intros Hrun. destruct (main_adds_cubes a _ _ _ Hrun) as (evs & Htr & Hall).
  exists evs. split; [done|]. by apply examined_cubes.
Qed.

(** X18. With a positive cap, a batch that ran to its end has counted,
    and examined, at most that many files. *)
Theorem main_respects_max a (σ σ' : world) (acc : progress) :
  0 < args_max a →
  main rt glob_match a σ = (Ret acc, σ') →
  grand_total acc ≤ args_max a
  ∧ Z.of_nat (length (examined (trace σ')))
    ≤ Z.of_nat (length (examined (trace σ))) + args_max a.
Proof.
  intros Hpos (b & (_ & Hc & Hm & _) & _)%main_counted.
  specialize (Hm Hpos). destruct b; lia.
Qed.

(** X19. The batch never removes anything: whether it ends, is stopped
    or raises, every path that existed before still exists afterwards. *)
Theorem main_never_removes a (σ σ' : world) r (q : Path) :
  main rt glob_match a σ = (r, σ') →
  present (tree σ) q = true → present (tree σ') q = true.
Proof.
  intros Hrun. apply present_extends.
  revert σ r σ' Hrun. change (preserves keeps_paths (main rt glob_match a)).
  apply preserves_main.
  - intros σ. apply extends_refl.
  - intros σ1 σ2 σ3. apply extends_trans.
  - apply keeps_paths_exists.
  - intros p _. apply grows_process_one.
  - apply grows_mkdir.
Qed.

(** X20. A dry run of the batch reads no file and writes none, whether
    it ends, is stopped or raises; afterwards the tree has the regular
    files it had, with their contents, and no other: directories are all
    it may have added. *)
Theorem main_dry_run_quiet a (σ σ' : world) r :
  args_dry_run a = true →
  main rt glob_match a σ = (r, σ') →
  (∃ evs, trace σ' = trace σ ++ evs ∧ forallb quiet evs = true)
  ∧ ∀ q c, resolve (tree σ') q = inr (File c) ↔ resolve (tree σ) q = inr (File c).
Proof.
  intros Hdry Hrun. split.
  - revert σ r σ' Hrun. change (preserves (adds quiet) (main rt glob_match a)).
    apply preserves_main; [apply adds_refl|apply adds_trans| | |].
    + intros p. by apply adds_exists.
    + intros p _. rewrite Hdry. by apply adds_process_one.
    + by apply adds_mkdir.
  - revert σ r σ' Hrun. change (preserves same_files (main rt glob_match a)).
    apply preserves_main; [apply same_files_refl|apply same_files_trans| | |].
    + apply same_files_exists.
    + intros p _. rewrite Hdry.
      apply preserves_process_one;
        [apply same_files_refl|apply same_files_trans|apply same_files_stat
        |apply same_files_mkdir|apply same_files_exists|done].
    + apply same_files_mkdir.
Qed.


End BatchMore.

Section BatchMoreWitnesses.
Import PathLib Mapper Decoder FS Zeiss Batch.

Lemma main_tally_witness :
  ∃ acc σ',
    main example_runtime example_glob example_args (World example_forest []) = (Ret acc, σ')
    ∧ tallied false acc ∧ last (stdout acc) = Some (done_line acc).
Proof.
  assert (∃ acc σ', main example_runtime example_glob example_args (World example_forest [])
                    = (Ret acc, σ')) as (acc & σ' & Hrun) by (vm_compute; eauto).
  exists acc, σ'. split; [exact Hrun|].
  exact (main_tally example_runtime example_glob example_args _ _ _ Hrun).
Defined.

Lemma main_counts_examined_witness :
  ∃ acc σ' evs,
    main example_runtime example_glob example_args (World example_forest []) = (Ret acc, σ')
    ∧ trace σ' = [] ++ evs ∧ Z.of_nat (length (examined evs)) = grand_total acc.
Proof.
  assert (∃ acc σ', main example_runtime example_glob example_args (World example_forest [])
                    = (Ret acc, σ')) as (acc & σ' & Hrun) by (vm_compute; eauto).
  destruct (main_counts_examined example_runtime example_glob example_args _ _ _ Hrun)
    as (evs & Htr & Hn).
  exists acc, σ', evs. split; [exact Hrun|]. split; [exact Htr|exact Hn].
Defined.

Lemma main_examines_cubes_only_witness :
  ∃ evs,
    trace (main example_runtime example_glob example_args (World example_forest [])).2
    = [] ++ evs
    ∧ Forall (λ p, contains "200x200" (name p) = true) (examined evs).
Proof.
  apply (main_examines_cubes_only example_runtime example_glob example_args
           (World example_forest []) _
           (main example_runtime example_glob example_args (World example_forest [])).1).
  by destruct (main _ _ _ _).
Defined.

Lemma main_respects_max_witness :
  ∃ acc σ',
    main example_runtime example_glob example_capped_args (World example_forest [])
    = (Ret acc, σ')
    ∧ grand_total acc ≤ 2.
Proof.
  assert (∃ acc σ', main example_runtime example_glob example_capped_args
                      (World example_forest []) = (Ret acc, σ')) as (acc & σ' & Hrun)
    by (vm_compute; eauto).
  exists acc, σ'. split; [exact Hrun|].
  apply (main_respects_max example_runtime example_glob example_capped_args _ _ _
           ltac:(reflexivity) Hrun).
Defined.

Lemma main_never_removes_witness :
  present (tree (main example_runtime example_glob example_args (World example_forest [])).2)
    ["/"; "data"; "images"; "s1"; "p2"; "V3"; "sdoct_cirrus"; "d_512x128.img"] = true.
Proof.
  apply (main_never_removes example_runtime example_glob example_args
           (World example_forest []) _
           (main example_runtime example_glob example_args (World example_forest [])).1).
  - by destruct (main _ _ _ _).
  - vm_compute. reflexivity.
Defined.

Lemma main_dry_run_quiet_witness :
  (∃ evs,
     trace (main example_runtime example_glob example_dry_args (World example_forest [])).2
     = [] ++ evs ∧ forallb quiet evs = true)
  ∧ ∀ q c,
      resolve (tree (main example_runtime example_glob example_dry_args
                       (World example_forest [])).2) q = inr (File c)
      ↔ resolve example_forest q = inr (File c).
Proof.
  apply (main_dry_run_quiet example_runtime example_glob example_dry_args
           (World example_forest []) _
           (main example_runtime example_glob example_dry_args (World example_forest [])).1).
  - reflexivity.
  - by destruct (main _ _ _ _).
Defined.


End BatchMoreWitnesses.
